(** * Statistics merge machinery of [stats_impl.py]

    A shallow embedding of
    [tensorflow_data_validation/statistics/stats_impl.py]: the feature
    whitelist filter, the merge of [DatasetFeatureStatistics] protos, the
    wrapping into a [DatasetFeatureStatisticsList], and the two entry points
    ([generate_statistics_in_memory] and [GenerateStatisticsImpl.expand]).

    Python objects that the code mutates in place (the input protos) live in
    an explicit store; dictionaries whose iteration order is observable are
    association lists in insertion order; the example batch, which is only
    ever looked up by key, is a [gmap]. *)

From stdpp Require Import gmap strings list fin_maps.

(** * Exceptions and results *)

Inductive exn :=
| TypeError (msg : string)
| KeyError (key : string)
| ValueError.

Inductive result (A : Type) :=
| Ok (a : A)
| Raise (e : exn).
Arguments Ok {A} a.
Arguments Raise {A} e.

(** * The statistics protos (proto3)

    The messages come from [statistics_pb2].  Scalar fields have no presence:
    an unset scalar reads as its default ([0], the empty string, the first
    enum value).  Sub-messages have presence ([HasField]) and are options.
    Floating-point fields and histograms play no role in this file and are
    left out of the records. *)

Module pb.

Record CommonStatistics := {
  num_non_missing : N;
  num_missing : N;
  min_num_values : N;
  max_num_values : N;
  tot_num_values : N;
}.

Record NumericStatistics := {
  num_common_stats : option CommonStatistics;
  num_zeros : N;
}.

Record StringStatistics := {
  str_common_stats : option CommonStatistics;
  str_unique : N;
}.

Record BytesStatistics := {
  bytes_common_stats : option CommonStatistics;
  bytes_unique : N;
}.

Record StructStatistics := {
  struct_common_stats : option CommonStatistics;
}.

Record CustomStatistic := {
  custom_name : string;
  custom_str : string;
}.

Inductive FeatureType := INT | FLOAT | STRING | BYTES | STRUCT.

(** The [oneof stats] of a [FeatureNameStatistics]. *)
Inductive Stats :=
| stats_not_set
| num_stats (s : NumericStatistics)
| string_stats (s : StringStatistics)
| bytes_stats (s : BytesStatistics)
| struct_stats (s : StructStatistics).

Record FeatureNameStatistics := {
  name : string;
  type : FeatureType;
  stats : Stats;
  custom_stats : list CustomStatistic;
}.

Record DatasetFeatureStatistics := {
  dataset_name : string;
  num_examples : N;
  features : list FeatureNameStatistics;
}.

Record DatasetFeatureStatisticsList := {
  datasets : list DatasetFeatureStatistics;
}.

(** [statistics_pb2.DatasetFeatureStatistics()] *)
Definition new_DatasetFeatureStatistics : DatasetFeatureStatistics :=
  {| dataset_name := ""%string; num_examples := 0; features := [] |}.

(** [WhichOneof('stats')] *)
Inductive StatsCase :=
| case_num_stats | case_string_stats | case_bytes_stats | case_struct_stats.

Definition WhichOneof (f : FeatureNameStatistics) : option StatsCase :=
  match stats f with
  | stats_not_set => None
  | num_stats _ => Some case_num_stats
  | string_stats _ => Some case_string_stats
  | bytes_stats _ => Some case_bytes_stats
  | struct_stats _ => Some case_struct_stats
  end.

(** Reading a sub-message that is not the active member of the oneof
    returns the default instance and does not change the message. *)
Definition default_NumericStatistics : NumericStatistics :=
  {| num_common_stats := None; num_zeros := 0 |}.
Definition default_StringStatistics : StringStatistics :=
  {| str_common_stats := None; str_unique := 0 |}.

Definition get_num_stats (f : FeatureNameStatistics) : NumericStatistics :=
  match stats f with num_stats s => s | _ => default_NumericStatistics end.
Definition get_string_stats (f : FeatureNameStatistics) : StringStatistics :=
  match stats f with string_stats s => s | _ => default_StringStatistics end.

(** ** [MergeFrom]

    Protobuf's merge: a singular scalar of the source overwrites the
    destination when it is not the default value; a present sub-message is
    merged recursively (or copied when the destination has none); repeated
    fields are concatenated; a set oneof member of the source replaces a
    different member of the destination and is merged into an equal one.
    No case raises. *)

Definition merge_N (dst src : N) : N := if (src =? 0)%N then dst else src.

Definition merge_string (dst src : string) : string :=
  if decide (src = ""%string) then dst else src.

Definition merge_type (dst src : FeatureType) : FeatureType :=
  match src with INT => dst | _ => src end.

Definition merge_msg {A} (f : A → A → A) (dst src : option A) : option A :=
  match src, dst with
  | None, _ => dst
  | Some s, None => Some s
  | Some s, Some d => Some (f d s)
  end.

Definition CommonStatistics_MergeFrom (dst src : CommonStatistics) : CommonStatistics :=
  {| num_non_missing := merge_N (num_non_missing dst) (num_non_missing src);
     num_missing := merge_N (num_missing dst) (num_missing src);
     min_num_values := merge_N (min_num_values dst) (min_num_values src);
     max_num_values := merge_N (max_num_values dst) (max_num_values src);
     tot_num_values := merge_N (tot_num_values dst) (tot_num_values src) |}.

Definition NumericStatistics_MergeFrom (dst src : NumericStatistics) : NumericStatistics :=
  {| num_common_stats :=
       merge_msg CommonStatistics_MergeFrom (num_common_stats dst) (num_common_stats src);
     num_zeros := merge_N (num_zeros dst) (num_zeros src) |}.

Definition StringStatistics_MergeFrom (dst src : StringStatistics) : StringStatistics :=
  {| str_common_stats :=
       merge_msg CommonStatistics_MergeFrom (str_common_stats dst) (str_common_stats src);
     str_unique := merge_N (str_unique dst) (str_unique src) |}.

Definition BytesStatistics_MergeFrom (dst src : BytesStatistics) : BytesStatistics :=
  {| bytes_common_stats :=
       merge_msg CommonStatistics_MergeFrom (bytes_common_stats dst) (bytes_common_stats src);
     bytes_unique := merge_N (bytes_unique dst) (bytes_unique src) |}.

Definition StructStatistics_MergeFrom (dst src : StructStatistics) : StructStatistics :=
  {| struct_common_stats :=
       merge_msg CommonStatistics_MergeFrom (struct_common_stats dst) (struct_common_stats src) |}.

Definition Stats_MergeFrom (dst src : Stats) : Stats :=
  match src, dst with
  | stats_not_set, _ => dst
  | num_stats s, num_stats d => num_stats (NumericStatistics_MergeFrom d s)
  | string_stats s, string_stats d => string_stats (StringStatistics_MergeFrom d s)
  | bytes_stats s, bytes_stats d => bytes_stats (BytesStatistics_MergeFrom d s)
  | struct_stats s, struct_stats d => struct_stats (StructStatistics_MergeFrom d s)
  | _, _ => src
  end.

Definition MergeFrom (dst src : FeatureNameStatistics) : FeatureNameStatistics :=
  {| name := merge_string (name dst) (name src);
     type := merge_type (type dst) (type src);
     stats := Stats_MergeFrom (stats dst) (stats src);
     custom_stats := custom_stats dst ++ custom_stats src |}.

End pb.

Import pb.

(** * The store of input protos

    [stats_protos] is a list of proto objects; the merge keeps references to
    feature entries of these objects and calls [MergeFrom] on them.  The
    store holds the input objects by position, and a reference names the
    feature entry [j] of the report [i].  Each position is an object of its
    own. *)

Abbreviation store := (list DatasetFeatureStatistics).
Abbreviation ref := (nat * nat)%type.

Definition deref (σ : store) (r : ref) : option FeatureNameStatistics :=
  d ← σ !! r.1; features d !! r.2.

Definition with_features (g : list FeatureNameStatistics → list FeatureNameStatistics)
    (d : DatasetFeatureStatistics) : DatasetFeatureStatistics :=
  {| dataset_name := dataset_name d;
     num_examples := num_examples d;
     features := g (features d) |}.

(** In-place update of the object behind a reference. *)
Definition update (g : FeatureNameStatistics → FeatureNameStatistics)
    (r : ref) (σ : store) : store :=
  alter (with_features (alter g r.2)) r.1 σ.

(** The references visited by
    [for stats_proto in stats_protos: for feature_stats_proto in stats_proto.features],
    in order.  [MergeFrom] on an entry never changes the length of a
    [features] container, so the positions can be listed beforehand. *)
Fixpoint positions_from (i : nat) (σ : store) : list ref :=
  match σ with
  | [] => []
  | d :: σ' => ((λ j, (i, j)) <$> seq 0 (length (features d))) ++ positions_from (S i) σ'
  end.

Definition positions (σ : store) : list ref := positions_from 0 σ.

(** * Python dict keyed by feature name

    [stats_per_feature.values()] is iterated in insertion order, which is
    what an association list extended at its end gives. *)

Abbreviation dict := (list (string * ref)).

Fixpoint dict_get (d : dict) (k : string) : option ref :=
  match d with
  | [] => None
  | (k', v) :: d' => if decide (k' = k) then Some v else dict_get d' k
  end.

(** [d[k] = v] for a key that is not in [d] yet. *)
Definition dict_add (d : dict) (k : string) (v : ref) : dict := d ++ [(k, v)].

(** * [_merge_dataset_feature_stats_protos] *)

(** Body of the first loop (lines 169-173). *)
Definition merge_step (st : store * dict) (r : ref) : store * dict :=
  match deref st.1 r with
  | None => st
  | Some feature_stats_proto =>
      match dict_get st.2 (name feature_stats_proto) with
      | None => (st.1, dict_add st.2 (name feature_stats_proto) r)
      | Some r0 => (update (λ dst, MergeFrom dst feature_stats_proto) r0 st.1, st.2)
      end
  end.

(** The common sub-record the second loop looks at (lines 187-194). *)
Definition looked_up_common_stats (f : FeatureNameStatistics) : option CommonStatistics :=
  match WhichOneof f with
  | Some case_num_stats => num_common_stats (get_num_stats f)
  | _ => str_common_stats (get_string_stats f)
  end.

(** Body of the second loop (lines 181-196): the state is
    [result.features] and the local [num_examples]. *)
Definition collect_step (σ : store)
    (st : list FeatureNameStatistics * option N) (r : ref)
    : list FeatureNameStatistics * option N :=
  match deref σ r with
  | None => st
  | Some feature_stats_proto =>
      (st.1 ++ [feature_stats_proto],
       match st.2 with
       | Some n => Some n
       | None =>
           match looked_up_common_stats feature_stats_proto with
           | Some c => Some (num_non_missing c + num_missing c)%N
           | None => None
           end
       end)
  end.

(** Assignment to the [uint64] field [num_examples] (line 200): the protobuf
    runtime rejects a value outside [0, 2^64) with [ValueError]. *)
Definition uint64_max : N := 18446744073709551615.

Definition set_num_examples (d : DatasetFeatureStatistics) (n : N)
    : result DatasetFeatureStatistics :=
  if (n <=? uint64_max)%N
  then Ok {| dataset_name := dataset_name d; num_examples := n; features := features d |}
  else Raise ValueError.

(** The function returns the store it leaves behind and its result. *)
Definition _merge_dataset_feature_stats_protos (stats_protos : store)
    : store * result DatasetFeatureStatistics :=
  let '(σ, stats_per_feature) :=
    foldl merge_step (stats_protos, []) (positions stats_protos) in
  let '(fs, num_examples) :=
    foldl (collect_step σ) ([], None) stats_per_feature.*2 in
  let result := with_features (λ _, fs) new_DatasetFeatureStatistics in
  (σ, match num_examples with
      | Some n => set_num_examples result n
      | None => Ok result
      end).

(** * [_make_dataset_feature_statistics_list_proto] *)

Definition _make_dataset_feature_statistics_list_proto
    (stats_proto : DatasetFeatureStatistics) : DatasetFeatureStatisticsList :=
  {| datasets := [] ++ [stats_proto] |}.

(** * Example batches, generators and options

    A batch is a Python dict from feature name to a column of values; the
    column type and the example type are left abstract.  The generator
    classes, [batch_util] and [StatsOptions] live in other modules of the
    package: generators are records of their methods, and what the two entry
    points take from those modules is collected in [Runtime].  Generator
    methods are total functions. *)

Global Instance result_ret : MRet result := λ A, Ok.
Global Instance result_bind : MBind result := λ A B k x,
  match x with Ok a => k a | Raise e => Raise e end.

Section pipeline.
Context {Column Example : Type}.

Record CombinerStatsGenerator := {
  combiner_name : string;
  combiner_class : string;
  ACC : Type;
  create_accumulator : ACC;
  add_input : ACC → gmap string Column → ACC;
  merge_accumulators : list ACC → ACC;
  extract_output : ACC → DatasetFeatureStatistics;
}.

Record TransformStatsGenerator := {
  transform_name : string;
  transform_class : string;
  ptransform : list (gmap string Column) → list DatasetFeatureStatistics;
}.

(** An element of a generator list, classified the way [isinstance] does. *)
Inductive Generator :=
| Combiner (g : CombinerStatsGenerator)
| Transform (g : TransformStatsGenerator)
| OtherObject (class_name : string).

(** [generator.__class__.__name__] *)
Definition class_name (g : Generator) : string :=
  match g with
  | Combiner c => combiner_class c
  | Transform t => transform_class t
  | OtherObject n => n
  end.

(** The options the entry points read themselves; the tuning options only
    reach the constructors of the default generators. *)
Record StatsOptions := {
  generators : option (list Generator);
  feature_whitelist : option (list string);
  sample_count : option N;
}.

Record Runtime := {
  CommonStatsGenerator : StatsOptions → CombinerStatsGenerator;
  NumericStatsGenerator : StatsOptions → CombinerStatsGenerator;
  StringStatsGenerator : StatsOptions → CombinerStatsGenerator;
  TopKStatsGenerator : StatsOptions → Generator;
  UniquesStatsGenerator : StatsOptions → Generator;
  TopKUniquesCombinerStatsGenerator : StatsOptions → CombinerStatsGenerator;
  BatchExamples : option N → list Example → list (gmap string Column);
  merge_single_batch : list Example → gmap string Column;
}.

(** Truth value of [options.feature_whitelist]: [None] and the empty list
    are false. *)
Definition whitelist_configured (options : StatsOptions) : option (list string) :=
  match feature_whitelist options with
  | Some (n :: wl) => Some (n :: wl)
  | _ => None
  end.

(** ** Steps that touch the data, recorded in execution order *)

Inductive event :=
| ev_batch_examples (examples : list Example)
| ev_merge_single_batch (examples : list Example)
| ev_add_input (generator : string) (batch : gmap string Column)
| ev_ptransform (generator : string) (batches : list (gmap string Column)).

Definition traced (A : Type) : Type := list event * result A.

Definition traced_ret {A} (a : A) : traced A := ([], Ok a).

Definition traced_bind {A B} (x : traced A) (k : A → traced B) : traced B :=
  match x.2 with
  | Ok a => (x.1 ++ (k a).1, (k a).2)
  | Raise e => (x.1, Raise e)
  end.

Definition emit (e : event) : traced () := ([e], Ok ()).

Definition lift {A} (x : result A) : traced A := ([], x).

Fixpoint traced_map {A B} (f : A → traced B) (l : list A) : traced (list B) :=
  match l with
  | [] => traced_ret []
  | a :: l' =>
      traced_bind (f a) (λ b,
      traced_bind (traced_map f l') (λ bs,
      traced_ret (b :: bs)))
  end.

(** ** Subscript and dict comprehensions on a batch *)

(** [batch[feature_name]] *)
Definition getitem (batch : gmap string Column) (feature_name : string) : result Column :=
  match batch !! feature_name with
  | Some column => Ok column
  | None => Raise (KeyError feature_name)
  end.

(** [feature_name in batch] *)
Definition contains (batch : gmap string Column) (feature_name : string) : bool :=
  bool_decide (is_Some (batch !! feature_name)).

(** [_filter_features] (lines 146-150). *)
Fixpoint filter_features_into (acc batch : gmap string Column)
    (feature_whitelist : list string) : result (gmap string Column) :=
  match feature_whitelist with
  | [] => Ok acc
  | feature_name :: rest =>
      if contains batch feature_name then
        column ← getitem batch feature_name;
        filter_features_into (<[feature_name := column]> acc) batch rest
      else filter_features_into acc batch rest
  end.

Definition _filter_features (batch : gmap string Column) (feature_whitelist : list string)
    : result (gmap string Column) :=
  filter_features_into ∅ batch feature_whitelist.

(** The comprehension of [generate_statistics_in_memory] (lines 312-315). *)
Fixpoint whitelist_batch_into (acc batch : gmap string Column)
    (feature_whitelist : list string) : result (gmap string Column) :=
  match feature_whitelist with
  | [] => Ok acc
  | feature_name :: rest =>
      column ← getitem batch feature_name;
      whitelist_batch_into (<[feature_name := column]> acc) batch rest
  end.

(** ** [generate_statistics_in_memory] *)

Definition in_memory_type_error (g : Generator) : exn :=
  TypeError ("Statistics generator used in generate_statistics_in_memory must extend CombinerStatsGenerator, found object of type "
             +:+ class_name g +:+ ".").

(** The loop of lines 298-306. *)
Fixpoint append_combiners (stats_generators : list CombinerStatsGenerator)
    (gs : list Generator) : result (list CombinerStatsGenerator) :=
  match gs with
  | [] => Ok stats_generators
  | Combiner c :: gs' => append_combiners (stats_generators ++ [c]) gs'
  | g :: _ => Raise (in_memory_type_error g)
  end.

Definition in_memory_generators (rt : Runtime) (options : StatsOptions)
    : result (list CombinerStatsGenerator) :=
  let stats_generators :=
    [CommonStatsGenerator rt options; NumericStatsGenerator rt options;
     StringStatsGenerator rt options; TopKUniquesCombinerStatsGenerator rt options] in
  match generators options with
  | Some gs => append_combiners stats_generators gs
  | None => Ok stats_generators
  end.

(** One element of the [outputs] comprehension (lines 318-319). *)
Definition run_combiner_on_batch (batch : gmap string Column)
    (generator : CombinerStatsGenerator) : traced DatasetFeatureStatistics :=
  traced_bind (emit (ev_add_input (combiner_name generator) batch)) (λ _,
  traced_ret (extract_output generator
    (add_input generator (create_accumulator generator) batch))).

Definition generate_statistics_in_memory (rt : Runtime)
    (examples : list Example) (options : StatsOptions)
    : traced DatasetFeatureStatisticsList :=
  traced_bind (lift (in_memory_generators rt options)) (λ stats_generators,
  traced_bind (emit (ev_merge_single_batch examples)) (λ _,
  let batch := merge_single_batch rt examples in
  traced_bind (lift (match whitelist_configured options with
                     | Some wl => whitelist_batch_into ∅ batch wl
                     | None => Ok batch
                     end)) (λ batch,
  traced_bind (traced_map (run_combiner_on_batch batch) stats_generators) (λ outputs,
  traced_bind (lift (_merge_dataset_feature_stats_protos outputs).2) (λ merged,
  traced_ret (_make_dataset_feature_statistics_list_proto merged)))))).

(** ** [GenerateStatisticsImpl.expand]

    [expand] first builds the pipeline, which is where an object that is
    neither kind of generator is rejected (lines 107-121); the pipeline then
    runs.  The run is the one-worker schedule: the batches are folded into a
    single accumulator per combiner, and the merge is applied once to the
    flattened outputs. *)

Definition expand_type_error (g : Generator) : exn :=
  TypeError ("Statistics generator must extend one of CombinerStatsGenerator or TransformStatsGenerator, found object of type "
             +:+ class_name g).

Inductive stage :=
| combine_globally (g : CombinerStatsGenerator)
| apply_ptransform (g : TransformStatsGenerator).

Definition make_stage (g : Generator) : result stage :=
  match g with
  | Combiner c => Ok (combine_globally c)
  | Transform t => Ok (apply_ptransform t)
  | OtherObject _ => Raise (expand_type_error g)
  end.

Fixpoint make_stages (gs : list Generator) : result (list stage) :=
  match gs with
  | [] => Ok []
  | g :: gs' => s ← make_stage g; ss ← make_stages gs'; Ok (s :: ss)
  end.

Definition expand_generators (rt : Runtime) (options : StatsOptions) : list Generator :=
  [Combiner (CommonStatsGenerator rt options);
   Combiner (NumericStatsGenerator rt options);
   Combiner (StringStatsGenerator rt options);
   TopKStatsGenerator rt options;
   UniquesStatsGenerator rt options]
  ++ default [] (generators options).

Fixpoint add_inputs (g : CombinerStatsGenerator) (accumulator : ACC g)
    (batches : list (gmap string Column)) : traced (ACC g) :=
  match batches with
  | [] => traced_ret accumulator
  | batch :: rest =>
      traced_bind (emit (ev_add_input (combiner_name g) batch)) (λ _,
      add_inputs g (add_input g accumulator batch) rest)
  end.

Definition run_stage (batches : list (gmap string Column)) (s : stage)
    : traced (list DatasetFeatureStatistics) :=
  match s with
  | combine_globally g =>
      traced_bind (add_inputs g (create_accumulator g) batches) (λ accumulator,
      traced_ret [extract_output g accumulator])
  | apply_ptransform g =>
      traced_bind (emit (ev_ptransform (transform_name g) batches)) (λ _,
      traced_ret (ptransform g batches))
  end.

Fixpoint filter_batches (batches : list (gmap string Column)) (wl : list string)
    : result (list (gmap string Column)) :=
  match batches with
  | [] => Ok []
  | batch :: rest =>
      b ← _filter_features batch wl; bs ← filter_batches rest wl; Ok (b :: bs)
  end.

Definition expand (rt : Runtime) (options : StatsOptions) (dataset : list Example)
    : traced DatasetFeatureStatisticsList :=
  traced_bind (lift (make_stages (expand_generators rt options))) (λ stages,
  traced_bind (emit (ev_batch_examples dataset)) (λ _,
  let batches := BatchExamples rt (sample_count options) dataset in
  traced_bind (lift (match whitelist_configured options with
                     | Some wl => filter_batches batches wl
                     | None => Ok batches
                     end)) (λ batches,
  traced_bind (traced_map (run_stage batches) stages) (λ result_protos,
  traced_bind (lift (_merge_dataset_feature_stats_protos (mjoin result_protos)).2) (λ merged,
  traced_ret (_make_dataset_feature_statistics_list_proto merged)))))).

(** The batches an event hands to a generator. *)
Definition batches_given (e : event) : list (gmap string Column) :=
  match e with
  | ev_add_input _ batch => [batch]
  | ev_ptransform _ batches => batches
  | _ => []
  end.


End pipeline.

Arguments CombinerStatsGenerator : clear implicits.
Arguments TransformStatsGenerator : clear implicits.
Arguments Generator : clear implicits.
Arguments StatsOptions : clear implicits.
Arguments Runtime : clear implicits.
Arguments event : clear implicits.
Arguments stage : clear implicits.

(** [isinstance(generator, stats_generator.CombinerStatsGenerator)] *)
Definition is_combiner {Column} (g : Generator Column) : bool :=
  match g with Combiner _ => true | _ => false end.


(** * Specification-side definitions for the merge *)

(** All feature entries of the inputs, in iteration order. *)
Definition all_features (σ : store) : list FeatureNameStatistics :=
  σ ≫= features.

(** The value-level reading of the first loop: an entry is merged into the
    first accumulated entry of its name, or appended. *)
Fixpoint merge_into (acc : list FeatureNameStatistics) (e : FeatureNameStatistics)
    : list FeatureNameStatistics :=
  match acc with
  | [] => [e]
  | a :: acc' =>
      if decide (name a = name e) then MergeFrom a e :: acc'
      else a :: merge_into acc' e
  end.

Definition merged_entries (es : list FeatureNameStatistics) : list FeatureNameStatistics :=
  foldl merge_into [] es.

(** The entries named [n], in iteration order. *)
Definition entries_named (n : string) (es : list FeatureNameStatistics)
    : list FeatureNameStatistics :=
  filter (λ e, name e = n) es.

(** The common sub-record embedded in a feature entry, whatever its kind. *)
Definition common_stats (f : FeatureNameStatistics) : option CommonStatistics :=
  match stats f with
  | stats_not_set => None
  | num_stats s => num_common_stats s
  | string_stats s => str_common_stats s
  | bytes_stats s => bytes_common_stats s
  | struct_stats s => struct_common_stats s
  end.

Definition total_count (c : CommonStatistics) : N :=
  (num_non_missing c + num_missing c)%N.

(** The value of the local [num_examples] after the second loop. *)
Definition derived_num_examples (fs : list FeatureNameStatistics) : option N :=
  total_count <$> head (omap looked_up_common_stats fs).

(** The result the merge returns for a given list of merged entries. *)
Definition finish (fs : list FeatureNameStatistics) : result DatasetFeatureStatistics :=
  let result := with_features (λ _, fs) new_DatasetFeatureStatistics in
  match derived_num_examples fs with
  | Some n => set_num_examples result n
  | None => Ok result
  end.

(** A dictionary slot [(k, r)] holds the entry [a]. *)
Definition holds (σ : store) (kr : string * ref) (a : FeatureNameStatistics) : Prop :=
  kr.1 = name a ∧ deref σ kr.2 = Some a.

(** The entries behind a list of references. *)
Definition entries_at (σ : store) (p : list ref) : list FeatureNameStatistics :=
  omap (deref σ) p.

(** Invariant of the first loop after the references [p] have been visited,
    for the initial store [σ0], the current store [σ] and the dictionary [d]. *)
Definition loop_inv (σ0 : store) (p : list ref) (σ : store) (d : dict) : Prop :=
  Forall2 (holds σ) d (merged_entries (entries_at σ0 p))
  ∧ NoDup d.*2
  ∧ d.*2 ⊆ p
  ∧ (∀ r, r ∉ d.*2 → deref σ r = deref σ0 r)
  ∧ (NoDup (name <$> entries_at σ0 p) → σ = σ0)
  ∧ Forall (λ kr, ∃ e, deref σ0 kr.2 = Some e
                       ∧ head (entries_named kr.1 (entries_at σ0 p)) = Some e) d.

(** * Sample protos *)

Definition common (present missing : N) : CommonStatistics :=
  {| num_non_missing := present; num_missing := missing;
     min_num_values := 0; max_num_values := 0; tot_num_values := 0 |}.

Definition numeric_entry (n : string) (present missing : N) : FeatureNameStatistics :=
  {| name := n; type := INT;
     stats := num_stats {| num_common_stats := Some (common present missing); num_zeros := 0 |};
     custom_stats := [] |}.

Definition string_entry (n : string) (present missing : N) : FeatureNameStatistics :=
  {| name := n; type := STRING;
     stats := string_stats {| str_common_stats := Some (common present missing); str_unique := 0 |};
     custom_stats := [] |}.

Definition bytes_entry (n : string) (present missing : N) : FeatureNameStatistics :=
  {| name := n; type := BYTES;
     stats := bytes_stats {| bytes_common_stats := Some (common present missing); bytes_unique := 0 |};
     custom_stats := [] |}.

Definition report (fs : list FeatureNameStatistics) : DatasetFeatureStatistics :=
  with_features (λ _, fs) new_DatasetFeatureStatistics.

(** * Sample generators, runtime and options *)

(** A combiner that reports one numeric entry per feature name it saw. *)
Definition names_combiner (n : string) : CombinerStatsGenerator nat :=
  {| combiner_name := n;
     combiner_class := "NamesCombiner";
     ACC := list string;
     create_accumulator := [];
     add_input := λ acc batch, acc ++ (map_to_list batch).*1;
     merge_accumulators := mjoin;
     extract_output := λ acc, report ((λ k, numeric_entry k 1 0) <$> acc) |}.

(** A transform generator that reports nothing. *)
Definition silent_transform (n : string) : TransformStatsGenerator nat :=
  {| transform_name := n;
     transform_class := "SilentTransform";
     ptransform := λ _, [] |}.

(** Examples are one-row batches; batching keeps one example per batch. *)
Definition sample_runtime : Runtime nat (gmap string nat) :=
  {| CommonStatsGenerator := λ _, names_combiner "CommonStatsGenerator";
     NumericStatsGenerator := λ _, names_combiner "NumericStatsGenerator";
     StringStatsGenerator := λ _, names_combiner "StringStatsGenerator";
     TopKStatsGenerator := λ _, Transform (silent_transform "TopKStatsGenerator");
     UniquesStatsGenerator := λ _, Transform (silent_transform "UniquesStatsGenerator");
     TopKUniquesCombinerStatsGenerator := λ _, names_combiner "TopKUniquesCombinerStatsGenerator";
     BatchExamples := λ _ examples, examples;
     merge_single_batch := λ examples, foldr (∪) ∅ examples |}.

Definition example_ABC : gmap string nat :=
  <["A" := 1]> (<["B" := 2]> (<["C" := 3]> ∅)).

Definition options_whitelist (wl : list string) : StatsOptions nat :=
  {| generators := None; feature_whitelist := Some wl; sample_count := Some 1%N |}.



(** * Further specification-side definitions *)

(** What the merge must not touch in an input report: its own fields and
    the names of its entries. *)
Definition outline (d : DatasetFeatureStatistics) : string * N * list string :=
  (dataset_name d, num_examples d, name <$> features d).

(** Both presence counts of every common sub-record of an entry are at most
    [B]. *)
Definition counts_within (B : N) (f : FeatureNameStatistics) : Prop :=
  ∀ c, common_stats f = Some c → (num_non_missing c ≤ B)%N ∧ (num_missing c ≤ B)%N.

(** Two entries do not carry different kind tags. *)
Definition same_kind (a b : FeatureNameStatistics) : Prop :=
  WhichOneof a = None ∨ WhichOneof b = None ∨ WhichOneof a = WhichOneof b.


(** The sub-dict of a batch on the whitelisted names. *)
Definition restrict_to {Column} (wl : list string) (batch : gmap string Column)
    : gmap string Column :=
  filter (λ kv, kv.1 ∈ wl) batch.





(** [statistics_pb2.FeatureNameStatistics()] *)
Definition new_FeatureNameStatistics : FeatureNameStatistics :=
  {| name := ""; type := INT; stats := stats_not_set; custom_stats := [] |}.

(** Two entries carry no different kind tags and [MergeFrom] gives the same
    entry whichever of them is the destination, as it does when they set
    disjoint fields. *)
Definition merge_order_free (a b : FeatureNameStatistics) : Prop :=
  same_kind a b ∧ MergeFrom a b = MergeFrom b a.

(** A numeric entry that only sets [num_zeros]. *)
Definition numeric_zeros_entry (n : string) (zeros : N) : FeatureNameStatistics :=
  {| name := n; type := INT;
     stats := num_stats {| num_common_stats := None; num_zeros := zeros |};
     custom_stats := [] |}.
(** * The store *)

Lemma deref_update_eq g r σ : deref (update g r σ) r = g <$> deref σ r.
Proof.
  destruct r as [i j]. unfold deref, update. simpl.
  rewrite list_lookup_alter_eq. destruct (σ !! i) as [d|]; simpl; [|done].
  by rewrite list_lookup_alter_eq.
Qed.

Lemma deref_update_ne g r r' σ : r ≠ r' → deref (update g r σ) r' = deref σ r'.
Proof.
  destruct r as [i j], r' as [i' j']. intros Hne. unfold deref, update. simpl.
  destruct (decide (i = i')) as [->|Hi].
  - rewrite list_lookup_alter_eq. destruct (σ !! i') as [d|]; simpl; [|done].
    rewrite list_lookup_alter_ne; [done|congruence].
  - by rewrite list_lookup_alter_ne.
Qed.

Lemma lookup_seq_fmap {A} (l : list A) : (λ j, l !! j) <$> seq 0 (length l) = Some <$> l.
Proof.
  induction l as [|x l IH] using rev_ind; [done|].
  rewrite length_app, Nat.add_1_r, seq_S, !fmap_app. simpl.
  rewrite lookup_app_r, Nat.sub_diag by lia. simpl. f_equal.
  rewrite <- IH. apply list_fmap_ext. intros i j Hj.
  apply lookup_seq in Hj as [-> Hlt]. simpl. by rewrite lookup_app_l.
Qed.

Lemma deref_positions_from σ1 σ2 :
  deref (σ1 ++ σ2) <$> positions_from (length σ1) σ2 = Some <$> all_features σ2.
Proof.
  revert σ1. induction σ2 as [|d σ2 IH]; intros σ1; [done|].
  simpl. unfold all_features. simpl. rewrite !fmap_app. f_equal.
  - rewrite <- list_fmap_compose, <- lookup_seq_fmap. apply list_fmap_ext.
    intros i j _. unfold deref. simpl.
    by rewrite lookup_app_r, Nat.sub_diag by lia.
  - specialize (IH (σ1 ++ [d])). rewrite length_app, Nat.add_1_r in IH.
    by rewrite <- app_assoc in IH.
Qed.

Lemma omap_fmap_Some {A B} (f : A → option B) (l : list A) (l' : list B) :
  f <$> l = Some <$> l' → omap f l = l'.
Proof.
  revert l'. induction l as [|x l IH]; intros [|y l'] Heq; simplify_eq/=; [done|].
  rewrite H. simpl. f_equal. by apply IH.
Qed.

Lemma entries_at_positions σ : entries_at σ (positions σ) = all_features σ.
Proof. apply omap_fmap_Some, (deref_positions_from [] σ). Qed.

Lemma positions_from_ge i σ r : r ∈ positions_from i σ → i ≤ r.1.
Proof.
  revert i. induction σ as [|d σ IH]; intros i; simpl; [by intros ?%elem_of_nil|].
  rewrite elem_of_app, list_elem_of_fmap. intros [(j & -> & _)|Hr]; simpl; [lia|].
  apply IH in Hr. lia.
Qed.

Lemma NoDup_positions_from i σ : NoDup (positions_from i σ).
Proof.
  revert i. induction σ as [|d σ IH]; intros i; simpl; [constructor|].
  apply NoDup_app. split_and!.
  - apply NoDup_fmap_2; [|apply NoDup_seq]. intros ???. congruence.
  - intros r (j & -> & _)%list_elem_of_fmap Hr%positions_from_ge. simpl in Hr. lia.
  - apply IH.
Qed.

(** * [MergeFrom] on feature entries *)

Lemma MergeFrom_name a e : name a = name e → name (MergeFrom a e) = name a.
Proof. intros Hn. simpl. unfold merge_string. by case_decide. Qed.

Lemma MergeFrom_WhichOneof a e :
  WhichOneof (MergeFrom a e) =
    match WhichOneof e with Some c => Some c | None => WhichOneof a end.
Proof. unfold WhichOneof. simpl. by destruct (stats e), (stats a). Qed.

(** * The value-level merge *)

Lemma merge_into_fresh acc e :
  name e ∉ name <$> acc → merge_into acc e = acc ++ [e].
Proof.
  induction acc as [|a acc IH]; simpl; [done|].
  rewrite not_elem_of_cons. intros [Hne Hnin].
  case_decide; [congruence|]. by rewrite IH.
Qed.

Lemma merge_into_names acc e :
  name <$> merge_into acc e =
    if decide (name e ∈ name <$> acc) then name <$> acc else (name <$> acc) ++ [name e].
Proof.
  induction acc as [|a acc IH]; [done|].
  cbn [merge_into]. rewrite (fmap_cons name a acc).
  destruct (decide (name a = name e)) as [Heq|Hne].
  - rewrite decide_True by (rewrite Heq; apply list_elem_of_here).
    by rewrite fmap_cons, MergeFrom_name.
  - rewrite fmap_cons, IH. destruct (decide (name e ∈ name <$> acc)) as [Hin|Hnin].
    + by rewrite decide_True by (by apply list_elem_of_further).
    + rewrite decide_False; [done|]. rewrite not_elem_of_cons. split; congruence.
Qed.

Lemma merged_entries_snoc es e :
  merged_entries (es ++ [e]) = merge_into (merged_entries es) e.
Proof. unfold merged_entries. by rewrite foldl_app. Qed.

Lemma merged_entries_names_elem es n :
  n ∈ name <$> merged_entries es ↔ n ∈ name <$> es.
Proof.
  induction es as [|e es IH] using rev_ind; [done|].
  rewrite merged_entries_snoc, merge_into_names, fmap_app. simpl.
  case_decide as Hin; rewrite ?elem_of_app, ?list_elem_of_singleton, IH; [|done].
  split; [tauto|]. intros [?| ->]; [done|]. by apply IH.
Qed.

Lemma merged_entries_names_NoDup es : NoDup (name <$> merged_entries es).
Proof.
  induction es as [|e es IH] using rev_ind; [constructor|].
  rewrite merged_entries_snoc, merge_into_names.
  case_decide as Hin; [done|].
  apply NoDup_app. split_and!; [done| |apply NoDup_singleton].
  intros n Hn ->%list_elem_of_singleton. done.
Qed.

Lemma merged_entries_distinct es :
  NoDup (name <$> es) → merged_entries es = es.
Proof.
  induction es as [|e es IH] using rev_ind; [done|].
  rewrite fmap_app, NoDup_app. intros (Hes & Hdisj & _).
  rewrite merged_entries_snoc, IH by done.
  apply merge_into_fresh. intros Hin. apply (Hdisj _ Hin). simpl. apply list_elem_of_here.
Qed.

Lemma entries_named_None n es : n ∉ name <$> es → entries_named n es = [].
Proof.
  intros Hnin. unfold entries_named. induction es as [|e es IH]; [done|].
  rewrite fmap_cons, not_elem_of_cons in Hnin. destruct Hnin as [Hne Hnin].
  rewrite filter_cons_False by congruence. by apply IH.
Qed.

Lemma entries_named_snoc n es e :
  entries_named n (es ++ [e]) =
    entries_named n es ++ (if decide (name e = n) then [e] else []).
Proof.
  unfold entries_named. by rewrite filter_app.
Qed.

Lemma head_app_Some {A} (l l' : list A) x : head l = Some x → head (l ++ l') = Some x.
Proof. by destruct l. Qed.

(** * Content of the merged entries *)

Lemma merge_into_elem acc e a :
  NoDup (name <$> acc) → a ∈ merge_into acc e →
  (a ∈ acc ∧ name a ≠ name e)
  ∨ (∃ a0, a0 ∈ acc ∧ name a0 = name e ∧ a = MergeFrom a0 e)
  ∨ (a = e ∧ name e ∉ name <$> acc).
Proof.
  induction acc as [|a1 acc IH]; cbn [merge_into].
  - intros _ ->%list_elem_of_singleton. right; right. split; [done|apply not_elem_of_nil].
  - rewrite fmap_cons, NoDup_cons. intros [Hnin Hnd].
    destruct (decide (name a1 = name e)) as [Heq|Hne].
    + intros [->|Ha]%elem_of_cons.
      * right; left. exists a1. split_and!; [apply list_elem_of_here|done..].
      * left. split; [by apply list_elem_of_further|].
        intros Hn. apply Hnin. rewrite Heq, <- Hn. by apply list_elem_of_fmap_2.
    + intros [->|Ha]%elem_of_cons.
      * left. split; [apply list_elem_of_here|done].
      * destruct (IH Hnd Ha) as [[? ?]|[(a0 & ? & ? & ?)|[? ?]]].
        -- left. split; [by apply list_elem_of_further|done].
        -- right; left. exists a0. split_and!; [by apply list_elem_of_further|done..].
        -- right; right. split; [done|]. rewrite not_elem_of_cons. split; congruence.
Qed.

(** Every merged entry is the in-order [MergeFrom] of the input entries of
    its name, starting from the first of them. *)
Lemma merged_entry_spec es a :
  a ∈ merged_entries es →
  ∃ e rest, entries_named (name a) es = e :: rest ∧ a = foldl MergeFrom e rest.
Proof.
  revert a. induction es as [|e es IH] using rev_ind; intros a.
  - by intros ?%elem_of_nil.
  - rewrite merged_entries_snoc, entries_named_snoc.
    intros Ha. apply merge_into_elem in Ha; [|apply merged_entries_names_NoDup].
    destruct Ha as [[Ha Hne]|[(a0 & Ha0 & Heq & ->)|[-> Hnin]]].
    + destruct (IH _ Ha) as (e0 & rest & -> & ->).
      rewrite decide_False by congruence. rewrite app_nil_r. eauto.
    + destruct (IH _ Ha0) as (e0 & rest & Hnamed & ->).
      rewrite MergeFrom_name, Hnamed, decide_True by done.
      exists e0, (rest ++ [e]). split; [done|]. by rewrite foldl_app.
    + rewrite merged_entries_names_elem in Hnin.
      rewrite entries_named_None, decide_True by done. by exists e, [].
Qed.

Lemma foldl_MergeFrom_WhichOneof b l :
  (∃ e, e ∈ l ∧ WhichOneof e ≠ None) →
  ∃ e, e ∈ l ∧ WhichOneof e ≠ None ∧ WhichOneof (foldl MergeFrom b l) = WhichOneof e.
Proof.
  induction l as [|e l IH] using rev_ind.
  - intros (e & ?%elem_of_nil & _). done.
  - intros (e' & Hin & Htag). rewrite foldl_app. simpl. rewrite MergeFrom_WhichOneof.
    destruct (WhichOneof e) as [c|] eqn:Hc.
    + exists e. rewrite Hc. split_and!; [|done..]. apply elem_of_app. right. apply list_elem_of_here.
    + destruct IH as (e'' & ? & ? & ?).
      * apply elem_of_app in Hin as [?| ->%list_elem_of_singleton]; [eauto|congruence].
      * exists e''. split_and!; [|done..]. apply elem_of_app. by left.
Qed.

(** * The first loop refines the value-level merge *)

Lemma dict_get_None (d : dict) k : dict_get d k = None ↔ k ∉ d.*1.
Proof.
  induction d as [|[k' v] d IH]; simpl.
  - split; [intros _; apply not_elem_of_nil|done].
  - rewrite not_elem_of_cons. case_decide as Hk.
    + split; [done|]. by intros [? _].
    + rewrite IH. split; [by intros ?; split; [congruence|]|by intros [_ ?]].
Qed.

Lemma dict_get_Some_elem (d : dict) k r : dict_get d k = Some r → r ∈ d.*2.
Proof.
  induction d as [|[k' v] d IH]; simpl; [done|].
  case_decide; intros ?; simplify_eq; [apply list_elem_of_here|].
  by apply list_elem_of_further, IH.
Qed.

Lemma dict_get_Some_key (d : dict) k r : dict_get d k = Some r → k ∈ d.*1.
Proof.
  intros Hget. destruct (decide (k ∈ d.*1)) as [|Hnin]; [done|].
  apply dict_get_None in Hnin. congruence.
Qed.

Lemma holds_keys σ (d : dict) acc : Forall2 (holds σ) d acc → d.*1 = name <$> acc.
Proof.
  induction 1 as [|[k r] a d acc [Hk ?] ? IH]; [done|].
  rewrite !fmap_cons, IH. by rewrite <- Hk.
Qed.

Lemma holds_frame σ σ' (d : dict) acc :
  (∀ r, r ∈ d.*2 → deref σ' r = deref σ r) →
  Forall2 (holds σ) d acc → Forall2 (holds σ') d acc.
Proof.
  intros Hfr Hd. induction Hd as [|[k r] a d acc [Hk Hr] ? IH]; constructor.
  - split; [done|]. simpl in *. rewrite Hfr; [done|]. apply list_elem_of_here.
  - apply IH. intros r' Hr'. apply Hfr. by apply list_elem_of_further.
Qed.

Lemma merge_step_found σ (d : dict) acc e r0 :
  Forall2 (holds σ) d acc → NoDup d.*2 → dict_get d (name e) = Some r0 →
  Forall2 (holds (update (λ dst, MergeFrom dst e) r0 σ)) d (merge_into acc e).
Proof.
  intros Hd. induction Hd as [|[k r] a d acc [Hk Hr] Hd IH]; [done|].
  rewrite fmap_cons, NoDup_cons. simpl in *. intros [Hnin Hnd] Hget. subst k.
  destruct (decide (name a = name e)) as [Heq|Hne].
  - simplify_eq. constructor.
    + split; cbn [fst snd]; [by rewrite MergeFrom_name|].
      by rewrite deref_update_eq, Hr.
    + eapply holds_frame; [|done]. intros r' Hr'.
      apply deref_update_ne. by intros ->.
  - constructor; [|by apply IH].
    split; [done|]. simpl. rewrite deref_update_ne; [done|].
    intros ->. by apply Hnin, (dict_get_Some_elem _ (name e)).
Qed.

Lemma entries_at_snoc σ p r :
  entries_at σ (p ++ [r]) = entries_at σ p ++ option_list (deref σ r).
Proof. unfold entries_at. rewrite omap_app. simpl. by destruct (deref σ r). Qed.

Lemma merge_step_inv σ0 p σ d r :
  loop_inv σ0 p σ d → r ∉ p →
  loop_inv σ0 (p ++ [r]) (merge_step (σ, d) r).1 (merge_step (σ, d) r).2.
Proof.
  intros (Hd & Hnd & Hsub & Hfr & Hsame & Hfirst) Hr.
  assert (r ∉ d.*2) as Hrd by (intros ?; by apply Hr, Hsub).
  unfold merge_step. simpl. rewrite (Hfr r Hrd).
  unfold loop_inv. rewrite entries_at_snoc.
  destruct (deref σ0 r) as [e|] eqn:He; simpl.
  2:{ rewrite app_nil_r. split_and!; [done|done| |done|done|done].
      intros r' ?. apply elem_of_app. left. by apply Hsub. }
  assert (Forall (λ kr : string * ref, ∃ e0, deref σ0 kr.2 = Some e0
            ∧ head (entries_named kr.1 (entries_at σ0 p ++ [e])) = Some e0) d) as Hfirst'.
  { eapply Forall_impl; [exact Hfirst|]. intros kr (e0 & ? & ?). exists e0. split; [done|].
    rewrite entries_named_snoc. by apply head_app_Some. }
  rewrite merged_entries_snoc.
  destruct (dict_get d (name e)) as [r0|] eqn:Hget; simpl.
  - assert (r0 ∈ d.*2) as Hr0 by by eapply dict_get_Some_elem.
    split_and!; [by apply merge_step_found|done| | | |done].
    + intros r' ?. apply elem_of_app. left. by apply Hsub.
    + intros r' Hr'. rewrite deref_update_ne; [by apply Hfr|]. by intros ->.
    + rewrite fmap_app, NoDup_app. intros (_ & Hdisj & _). exfalso.
      apply (Hdisj (name e)); [|apply list_elem_of_here].
      apply merged_entries_names_elem. rewrite <- (holds_keys _ _ _ Hd).
      by eapply dict_get_Some_key.
  - apply dict_get_None in Hget.
    assert (name e ∉ name <$> entries_at σ0 p) as Hfresh.
    { rewrite <- merged_entries_names_elem. by rewrite <- (holds_keys _ _ _ Hd). }
    rewrite merge_into_fresh by (by rewrite <- (holds_keys _ _ _ Hd)).
    unfold dict_add. rewrite fmap_app. simpl. split_and!.
    + apply Forall2_app; [done|]. constructor; [|done].
      split; [done|]. simpl. by rewrite (Hfr r Hrd).
    + apply NoDup_app. split_and!; [done| |apply NoDup_singleton].
      intros r' ? ->%list_elem_of_singleton. done.
    + intros r' [?| ->%list_elem_of_singleton]%elem_of_app; apply elem_of_app;
        [left; by apply Hsub|right; apply list_elem_of_here].
    + intros r' Hr'. apply Hfr. intros ?. apply Hr', elem_of_app. by left.
    + rewrite fmap_app, NoDup_app. intros (? & _). by apply Hsame.
    + apply Forall_app. split; [done|]. constructor; [|done].
      exists e. split; [done|]. simpl.
      rewrite entries_named_snoc, entries_named_None, decide_True by done. done.
Qed.

Lemma merge_loop_inv σ0 q : ∀ p σ d,
  loop_inv σ0 p σ d → NoDup (p ++ q) →
  loop_inv σ0 (p ++ q) (foldl merge_step (σ, d) q).1 (foldl merge_step (σ, d) q).2.
Proof.
  induction q as [|r q IH]; intros p σ d Hinv Hnd; simpl.
  - by rewrite app_nil_r.
  - rewrite (assoc_L _ p [r] q : p ++ r :: q = (p ++ [r]) ++ q) in Hnd |- *.
    destruct (merge_step (σ, d) r) as [σ1 d1] eqn:Hstep.
    apply IH; [|done].
    pose proof (merge_step_inv σ0 p σ d r Hinv) as Hs. rewrite Hstep in Hs.
    apply Hs. apply NoDup_app in Hnd as (Hnd & _ & _).
    apply NoDup_app in Hnd as (_ & Hdisj & _).
    intros Hin. apply (Hdisj _ Hin), list_elem_of_here.
Qed.

Lemma loop_inv_init σ0 : loop_inv σ0 [] σ0 [].
Proof.
  split_and!; try done; constructor.
Qed.

(** * The second loop *)

Lemma collect_loop σ (d : dict) acc :
  Forall2 (holds σ) d acc → ∀ fs n,
  foldl (collect_step σ) (fs, n) d.*2 =
    (fs ++ acc, match n with Some _ => n | None => derived_num_examples acc end).
Proof.
  induction 1 as [|[k r] a d acc [Hk Hr] ? IH]; intros fs n; simpl.
  - rewrite app_nil_r. by destruct n.
  - simpl in Hr. unfold collect_step at 2. rewrite Hr. simpl. rewrite IH.
    rewrite <- app_assoc. simpl. f_equal.
    destruct n as [n|]; [done|]. unfold derived_num_examples. simpl.
    by destruct (looked_up_common_stats a).
Qed.

(** The merge returns [finish] of the value-level merge of all entries. *)
Lemma merge_result stats_protos :
  (_merge_dataset_feature_stats_protos stats_protos).2 =
    finish (merged_entries (all_features stats_protos)).
Proof.
  unfold _merge_dataset_feature_stats_protos.
  pose proof (merge_loop_inv stats_protos (positions stats_protos) [] _ _
    (loop_inv_init stats_protos) (NoDup_positions_from 0 stats_protos)) as Hinv.
  destruct (foldl merge_step _ _) as [σ d]. simpl in Hinv.
  destruct Hinv as (Hd & _). rewrite entries_at_positions in Hd.
  rewrite (collect_loop _ _ _ Hd). done.
Qed.

Lemma merge_store_distinct stats_protos :
  NoDup (name <$> all_features stats_protos) →
  (_merge_dataset_feature_stats_protos stats_protos).1 = stats_protos.
Proof.
  intros Hnd. unfold _merge_dataset_feature_stats_protos.
  pose proof (merge_loop_inv stats_protos (positions stats_protos) [] _ _
    (loop_inv_init stats_protos) (NoDup_positions_from 0 stats_protos)) as Hinv.
  destruct (foldl merge_step _ _) as [σ d]. simpl in Hinv.
  destruct Hinv as (_ & _ & _ & _ & Hsame & _). rewrite entries_at_positions in Hsame.
  destruct (foldl (collect_step σ) _ _). simpl. by apply Hsame.
Qed.

(** After the merge every input entry is either unchanged or, when it is the
    first entry of its name, overwritten with the merged entry of that name. *)
Lemma merge_store_entries stats_protos r e :
  deref stats_protos r = Some e →
  deref (_merge_dataset_feature_stats_protos stats_protos).1 r = Some e
  ∨ ∃ rest,
      entries_named (name e) (all_features stats_protos) = e :: rest
      ∧ deref (_merge_dataset_feature_stats_protos stats_protos).1 r
        = Some (foldl MergeFrom e rest).
Proof.
  intros He. unfold _merge_dataset_feature_stats_protos.
  pose proof (merge_loop_inv stats_protos (positions stats_protos) [] _ _
    (loop_inv_init stats_protos) (NoDup_positions_from 0 stats_protos)) as Hinv.
  destruct (foldl merge_step _ _) as [σ d]. simpl in Hinv.
  destruct Hinv as (Hd & _ & _ & Hfr & _ & Hfirst). rewrite entries_at_positions in Hd, Hfirst.
  destruct (foldl (collect_step σ) _ _). simpl.
  destruct (decide (r ∈ d.*2)) as [Hin|Hnin]; [|left; by rewrite Hfr].
  right. apply list_elem_of_fmap in Hin as ([k r'] & -> & Hin). simpl in He.
  apply list_elem_of_lookup in Hin as [i Hi].
  destruct (Forall2_lookup_l _ _ _ _ _ Hd Hi) as (a & Ha & Hk & Hr).
  rewrite Forall_lookup in Hfirst. destruct (Hfirst _ _ Hi) as (e' & He' & Hhead).
  simpl in *. simplify_eq.
  destruct (merged_entry_spec (all_features stats_protos) a) as (e0 & rest & Hnamed & ->).
  { by eapply list_elem_of_lookup_2. }
  rewrite Hnamed in Hhead. simpl in Hhead. simplify_eq.
  assert (name e = name (foldl MergeFrom e rest)) as Hname.
  { assert (e ∈ entries_named (name (foldl MergeFrom e rest)) (all_features stats_protos)) as Hin
      by (rewrite Hnamed; apply list_elem_of_here).
    by apply list_elem_of_filter in Hin as [? _]. }
  exists rest. by rewrite Hname.
Qed.

(** * The returned value *)

Lemma finish_Ok fs result :
  finish fs = Ok result →
  features result = fs ∧ num_examples result = default 0%N (derived_num_examples fs).
Proof.
  unfold finish, set_num_examples. destruct (derived_num_examples fs) as [n|]; simpl.
  - case_match; intros ?; by simplify_eq.
  - intros ?; by simplify_eq.
Qed.

Lemma finish_Raise fs e :
  finish fs = Raise e →
  e = ValueError ∧ ∃ n, derived_num_examples fs = Some n ∧ (uint64_max < n)%N.
Proof.
  unfold finish, set_num_examples. destruct (derived_num_examples fs) as [n|]; simpl; [|done].
  case_match eqn:Hle; intros ?; simplify_eq. split; [done|]. exists n. split; [done|].
  apply N.leb_gt in Hle. done.
Qed.

Lemma finish_returns fs :
  (∀ n, derived_num_examples fs = Some n → (n ≤ uint64_max)%N) →
  ∃ result, finish fs = Ok result.
Proof.
  intros Hfit. destruct (finish fs) as [r|e] eqn:Hf; [eauto|].
  apply finish_Raise in Hf as (_ & n & Hn & Hlt). apply Hfit in Hn. lia.
Qed.

Lemma elem_of_all_features (σ : store) f :
  f ∈ all_features σ ↔ ∃ report, report ∈ σ ∧ f ∈ features report.
Proof.
  unfold all_features. rewrite list_elem_of_bind.
  split; intros (r & ? & ?); by exists r.
Qed.

(** * Properties of [_merge_dataset_feature_stats_protos] *)

(** C1, as stated, fails: two partial reports that tag the feature ["x"]
    numeric and string are merged into a report; no error is raised and the
    entry comes out tagged string. *)
Lemma merge_kind_mismatch_returns :
  (_merge_dataset_feature_stats_protos
     [report [numeric_entry "x" 1 0]; report [string_entry "x" 1 0]]).2
  = Ok {| dataset_name := ""; num_examples := 1;
          features := [string_entry "x" 1 0] |}.
Proof. reflexivity. Qed.

(** C1, amended: when two partial reports hold entries of one name with
    different kind tags, the merge raises no conflict error.  Its only
    failure is the [ValueError] of the final [num_examples] assignment;
    otherwise it returns a report with an entry of that name whose kind tag
    is the tag of an entry of the second report: the later kind silently
    wins. *)
Theorem merge_kind_mismatch_later_kind_wins r1 r2 e1 e2 :
  e1 ∈ features r1 → e2 ∈ features r2 →
  name e1 = name e2 →
  WhichOneof e1 ≠ None → WhichOneof e2 ≠ None →
  WhichOneof e1 ≠ WhichOneof e2 →
  match (_merge_dataset_feature_stats_protos [r1; r2]).2 with
  | Ok result =>
      ∃ f, f ∈ features result ∧ name f = name e1
        ∧ ∃ e, e ∈ features r2 ∧ name e = name e1
            ∧ WhichOneof e ≠ None ∧ WhichOneof f = WhichOneof e
  | Raise e => e = ValueError
  end.
Proof.
  intros He1 He2 Hname Ht1 Ht2 _. rewrite merge_result.
  destruct (finish _) as [result|e] eqn:Hfin; [|by apply finish_Raise in Hfin as [? _]].
  apply finish_Ok in Hfin as [-> _].
  assert (all_features [r1; r2] = features r1 ++ features r2) as Hall
    by (unfold all_features; simpl; by rewrite app_nil_r).
  assert (name e1 ∈ name <$> merged_entries (all_features [r1; r2])) as Hin.
  { apply merged_entries_names_elem, list_elem_of_fmap_2.
    rewrite Hall. apply elem_of_app. by left. }
  apply list_elem_of_fmap in Hin as (f & Hf & Hin).
  exists f. split_and!; [done..|].
  destruct (merged_entry_spec _ _ Hin) as (e0 & rest & Hnamed & ->).
  rewrite <- Hf, Hall in Hnamed.
  unfold entries_named in Hnamed. rewrite filter_app in Hnamed.
  assert (e1 ∈ filter (λ e, name e = name e1) (features r1)) as Hne1
    by by apply list_elem_of_filter.
  destruct (filter _ (features r1)) as [|e0' rest1] eqn:Hf1; [by apply elem_of_nil in Hne1|].
  simpl in Hnamed. simplify_eq. rewrite foldl_app.
  destruct (foldl_MergeFrom_WhichOneof (foldl MergeFrom e0 rest1)
    (filter (λ e, name e = name e1) (features r2))) as (e & [Hen He]%list_elem_of_filter & ? & ?).
  { exists e2. split; [|done]. by apply list_elem_of_filter. }
  by exists e.
Qed.

Lemma merge_kind_mismatch_later_kind_wins_witness :
  ∃ f, f ∈ [string_entry "x" 1 0] ∧ name f = "x"
    ∧ ∃ e, e ∈ [string_entry "x" 1 0] ∧ name e = "x"
        ∧ WhichOneof e ≠ None ∧ WhichOneof f = WhichOneof e.
Proof.
  apply (merge_kind_mismatch_later_kind_wins
    (report [numeric_entry "x" 1 0]) (report [string_entry "x" 1 0])
    (numeric_entry "x" 1 0) (string_entry "x" 1 0)).
  - apply list_elem_of_here.
  - apply list_elem_of_here.
  - reflexivity.
  - discriminate.
  - discriminate.
  - discriminate.
Defined.

(** C2, as stated, fails: swapping two partial reports that both describe the
    feature ["x"] changes the merged report. *)
Lemma merge_not_commutative :
  [report [numeric_entry "x" 1 0]; report [numeric_entry "x" 2 0]]
    ≡ₚ [report [numeric_entry "x" 2 0]; report [numeric_entry "x" 1 0]]
  ∧ (_merge_dataset_feature_stats_protos
       [report [numeric_entry "x" 1 0]; report [numeric_entry "x" 2 0]]).2
    = Ok {| dataset_name := ""; num_examples := 2; features := [numeric_entry "x" 2 0] |}
  ∧ (_merge_dataset_feature_stats_protos
       [report [numeric_entry "x" 2 0]; report [numeric_entry "x" 1 0]]).2
    = Ok {| dataset_name := ""; num_examples := 1; features := [numeric_entry "x" 1 0] |}.
Proof. split; [apply perm_swap|split; reflexivity]. Qed.

(** C3, as stated, fails: after merging two reports that both describe
    ["x"], the entry of the first input report has been overwritten. *)
Lemma merge_mutates_first_entry :
  (_merge_dataset_feature_stats_protos
     [report [numeric_entry "x" 1 0]; report [numeric_entry "x" 2 0]]).1
  = [report [numeric_entry "x" 2 0]; report [numeric_entry "x" 2 0]]
  ∧ (_merge_dataset_feature_stats_protos
     [report [numeric_entry "x" 1 0]; report [numeric_entry "x" 2 0]]).1
  ≠ [report [numeric_entry "x" 1 0]; report [numeric_entry "x" 2 0]].
Proof. split; [reflexivity|discriminate]. Qed.

(** C3, amended: when no feature name occurs in more than one entry of the
    input reports, the merge leaves every input report unchanged; in general
    every input entry is afterwards either unchanged or, being the first
    entry of its name, overwritten in place with the [MergeFrom] of all
    entries of that name. *)
Theorem merge_effect_on_inputs (stats_protos : store) :
  (NoDup (name <$> all_features stats_protos) →
   (_merge_dataset_feature_stats_protos stats_protos).1 = stats_protos)
  ∧ (∀ r e, deref stats_protos r = Some e →
       deref (_merge_dataset_feature_stats_protos stats_protos).1 r = Some e
       ∨ ∃ rest,
           entries_named (name e) (all_features stats_protos) = e :: rest
           ∧ deref (_merge_dataset_feature_stats_protos stats_protos).1 r
             = Some (foldl MergeFrom e rest)).
Proof. split; [apply merge_store_distinct|apply merge_store_entries]. Qed.

Lemma merge_effect_on_inputs_witness :
  (_merge_dataset_feature_stats_protos
     [report [numeric_entry "a" 1 0]; report [string_entry "b" 1 0]]).1
  = [report [numeric_entry "a" 1 0]; report [string_entry "b" 1 0]].
Proof.
  apply (merge_effect_on_inputs
    [report [numeric_entry "a" 1 0]; report [string_entry "b" 1 0]]).
  apply (bool_decide_unpack _). vm_compute. exact I.
Defined.

(** C4: the code at the failing input.  An entry tagged [bytes_stats]
    carries a common sub-record with 3 + 1 examples, but the merge reads the
    [string_stats] member (the [else] branch of lines 189-192), finds
    nothing and leaves [num_examples] at its default, where the first entry
    that has common statistics gives 4. *)
Lemma num_examples_skips_bytes_entry :
  (_merge_dataset_feature_stats_protos [report [bytes_entry "x" 3 1]]).2
    = Ok (report [bytes_entry "x" 3 1])
  ∧ num_examples (report [bytes_entry "x" 3 1]) = 0%N
  ∧ total_count <$> head (omap common_stats (features (report [bytes_entry "x" 3 1])))
    = Some 4%N.
Proof. split_and!; reflexivity. Qed.

Lemma looked_up_common_stats_spec f :
  WhichOneof f ≠ Some case_bytes_stats → WhichOneof f ≠ Some case_struct_stats →
  looked_up_common_stats f = common_stats f.
Proof.
  unfold looked_up_common_stats, common_stats, WhichOneof, get_num_stats, get_string_stats.
  by destruct (stats f).
Qed.

(** Where no entry of the merged report is tagged [bytes_stats] or
    [struct_stats], [num_examples] is [num_non_missing + num_missing] of the
    first entry, in iteration order, whose common sub-record is present, and
    its default [0] when no entry carries one. *)
Lemma num_examples_from_first_common_stats (stats_protos : store) result :
  (_merge_dataset_feature_stats_protos stats_protos).2 = Ok result →
  (∀ f, f ∈ features result →
     WhichOneof f ≠ Some case_bytes_stats ∧ WhichOneof f ≠ Some case_struct_stats) →
  num_examples result =
    match head (omap common_stats (features result)) with
    | Some c => (num_non_missing c + num_missing c)%N
    | None => 0%N
    end.
Proof.
  rewrite merge_result. intros [Hfs ->]%finish_Ok Hkinds.
  unfold derived_num_examples. rewrite <- Hfs.
  assert (omap looked_up_common_stats (features result) = omap common_stats (features result)) as ->.
  { clear Hfs. induction (features result) as [|f fs IH]; [done|].
    destruct (Hkinds f) as [??]; [apply list_elem_of_here|].
    change (omap ?g (f :: fs)) with (from_option (λ y, y :: omap g fs) (omap g fs) (g f)).
    rewrite looked_up_common_stats_spec, IH; [done| |done..].
    intros f' ?. by apply Hkinds, list_elem_of_further. }
  by destruct (head _).
Qed.

Lemma num_examples_from_first_common_stats_witness :
  num_examples {| dataset_name := ""; num_examples := 5;
                  features := [numeric_entry "a" 3 2; string_entry "b" 4 1] |} =
    match head (omap common_stats [numeric_entry "a" 3 2; string_entry "b" 4 1]) with
    | Some c => (num_non_missing c + num_missing c)%N
    | None => 0%N
    end.
Proof.
  apply (num_examples_from_first_common_stats
    [report [numeric_entry "a" 3 2]; report [string_entry "b" 4 1]]).
  - reflexivity.
  - intros f Hf. apply list_elem_of_In in Hf. simpl in Hf.
    destruct Hf as [<-|[<-|[]]]; split; discriminate.
Defined.

(** C6: merging the empty list of partial reports returns a report with no
    feature entry and [num_examples] unset (the default [0]); the assembled
    list proto holds that one dataset and no feature entry. *)
Theorem merge_empty_list :
  ∃ result,
    _merge_dataset_feature_stats_protos [] = ([], Ok result)
    ∧ features result = []
    ∧ num_examples result = 0%N
    ∧ datasets (_make_dataset_feature_statistics_list_proto result) = [result]
    ∧ datasets (_make_dataset_feature_statistics_list_proto result) ≫= features = [].
Proof. exists new_DatasetFeatureStatistics. split_and!; reflexivity. Qed.


(** C8: the merged report has an entry of a given name exactly when some
    input report has one, it has at most one entry per name, and each entry
    is the [MergeFrom] of the input entries of its name, in iteration order,
    into the first of them. *)
Theorem merged_report_features_union (stats_protos : store) result :
  (_merge_dataset_feature_stats_protos stats_protos).2 = Ok result →
  (∀ n, n ∈ name <$> features result ↔
        ∃ stats_proto f,
          stats_proto ∈ stats_protos ∧ f ∈ features stats_proto ∧ name f = n)
  ∧ NoDup (name <$> features result)
  ∧ (∀ f, f ∈ features result →
        ∃ e rest, entries_named (name f) (all_features stats_protos) = e :: rest
                  ∧ f = foldl MergeFrom e rest).
Proof.
  rewrite merge_result. intros [-> _]%finish_Ok. split_and!.
  - intros n. rewrite merged_entries_names_elem, list_elem_of_fmap. split.
    + intros (f & -> & (r & ? & ?)%elem_of_all_features). by exists r, f.
    + intros (r & f & ? & ? & <-). exists f. split; [done|].
      apply elem_of_all_features. by exists r.
  - apply merged_entries_names_NoDup.
  - apply merged_entry_spec.
Qed.

Lemma merged_report_features_union_witness :
  (∀ n, n ∈ name <$> [MergeFrom (numeric_entry "x" 1 0) (numeric_entry "x" 2 0);
                       string_entry "y" 2 0] ↔
        ∃ stats_proto f,
          stats_proto ∈ [report [numeric_entry "x" 1 0; string_entry "y" 2 0];
                         report [numeric_entry "x" 2 0]]
          ∧ f ∈ features stats_proto ∧ name f = n)
  ∧ NoDup (name <$> [MergeFrom (numeric_entry "x" 1 0) (numeric_entry "x" 2 0);
                      string_entry "y" 2 0])
  ∧ (∀ f, f ∈ [MergeFrom (numeric_entry "x" 1 0) (numeric_entry "x" 2 0);
                string_entry "y" 2 0] →
        ∃ e rest,
          entries_named (name f)
            (all_features [report [numeric_entry "x" 1 0; string_entry "y" 2 0];
                           report [numeric_entry "x" 2 0]]) = e :: rest
          ∧ f = foldl MergeFrom e rest).
Proof.
  apply (merged_report_features_union
    [report [numeric_entry "x" 1 0; string_entry "y" 2 0]; report [numeric_entry "x" 2 0]]
    {| dataset_name := ""; num_examples := 2;
       features := [MergeFrom (numeric_entry "x" 1 0) (numeric_entry "x" 2 0);
                    string_entry "y" 2 0] |}).
  reflexivity.
Defined.

(** The merge returns a report unless the derived [num_examples] does not
    fit the [uint64] field. *)
Lemma merge_returns (stats_protos : store) :
  (∀ f c, f ∈ merged_entries (all_features stats_protos) →
          looked_up_common_stats f = Some c → (total_count c ≤ uint64_max)%N) →
  ∃ result, (_merge_dataset_feature_stats_protos stats_protos).2 = Ok result.
Proof.
  intros Hfit. rewrite merge_result. apply finish_returns.
  intros n. unfold derived_num_examples.
  destruct (head _) as [c|] eqn:Hhead; [|done]. intros ?; simplify_eq/=.
  apply head_Some_elem_of, list_elem_of_omap in Hhead as (f & ? & ?). by eapply Hfit.
Qed.

(** * The traced steps *)

Section pipeline_properties.
Context {Column Example : Type}.
Implicit Types (batch acc : gmap string Column) (wl : list string).
Implicit Types (rt : Runtime Column Example) (options : StatsOptions Column).

Lemma traced_bind_Ok {A B} (x : traced (Column := Column) (Example := Example) A)
    (k : A → traced B) b :
  (traced_bind x k).2 = Ok b → ∃ a, x.2 = Ok a ∧ (k a).2 = Ok b.
Proof. unfold traced_bind. destruct x as [t [a|e]]; simpl; [eauto|done]. Qed.




(** * The whitelist comprehensions *)

Local Ltac absurd_membership :=
  exfalso;
  repeat match goal with
         | H : context [_ ∈ _ :: _] |- _ => rewrite elem_of_cons in H
         end;
  intuition congruence.

Lemma filter_features_into_spec wl : ∀ acc batch,
  ∃ out, filter_features_into acc batch wl = Ok out
    ∧ ∀ n, out !! n =
        if decide (n ∈ wl) then from_option Some (acc !! n) (batch !! n) else acc !! n.
Proof.
  induction wl as [|k wl IH]; intros acc batch; cbn [filter_features_into].
  - exists acc. split; [done|]. intros n. case_decide as Hin; [by apply elem_of_nil in Hin|done].
  - unfold contains, getitem. destruct (batch !! k) as [v|] eqn:Hk.
    + rewrite bool_decide_true by eauto. cbn [mbind result_bind].
      destruct (IH (<[k:=v]> acc) batch) as (out & -> & Hout). exists out. split; [done|].
      intros n. rewrite Hout. destruct (decide (n = k)) as [->|Hne].
      * rewrite Hk, lookup_insert_eq. cbn [from_option].
        repeat case_decide; try done; absurd_membership.
      * rewrite lookup_insert_ne by done.
        repeat case_decide; try done; absurd_membership.
    + rewrite bool_decide_false by (by intros [? ?]).
      destruct (IH acc batch) as (out & -> & Hout). exists out. split; [done|].
      intros n. rewrite Hout. destruct (decide (n = k)) as [->|Hne].
      * rewrite Hk. cbn [from_option]. repeat case_decide; done.
      * repeat case_decide; try done; absurd_membership.
Qed.

(** [_filter_features] never raises: it keeps the whitelisted features that
    the batch has and skips every other name. *)
Lemma filter_features_spec batch wl :
  ∃ filtered, _filter_features batch wl = Ok filtered
    ∧ ∀ n, filtered !! n = if decide (n ∈ wl) then batch !! n else None.
Proof.
  destruct (filter_features_into_spec wl ∅ batch) as (out & Hout & Hlookup).
  exists out. split; [done|]. intros n. rewrite Hlookup, lookup_empty.
  case_decide; [|done]. by destruct (batch !! n).
Qed.

Lemma whitelist_batch_into_missing wl : ∀ acc batch,
  (∃ n, n ∈ wl ∧ batch !! n = None) →
  ∃ k, k ∈ wl ∧ batch !! k = None ∧ whitelist_batch_into acc batch wl = Raise (KeyError k).
Proof.
  induction wl as [|k wl IH]; intros acc batch (n & Hin & Hn); [by apply elem_of_nil in Hin|].
  simpl. unfold getitem. destruct (batch !! k) as [v|] eqn:Hk; simpl.
  - destruct (IH (<[k:=v]> acc) batch) as (k' & ? & ? & ?).
    { exists n. split; [|done]. apply elem_of_cons in Hin as [->|?]; [congruence|done]. }
    exists k'. split_and!; [by apply list_elem_of_further|done..].
  - exists k. split_and!; [apply list_elem_of_here|done..].
Qed.


(** * Generator checks *)


End pipeline_properties.

Section entry_points.
Context {Column Example : Type}.
Implicit Types (batch : gmap string Column) (wl : list string).
Implicit Types (rt : Runtime Column Example) (options : StatsOptions Column).

Lemma append_combiners_Ok (gs : list (Generator Column)) : ∀ stats_generators,
  Forall (λ g, is_combiner g = true) gs →
  ∃ l, append_combiners stats_generators gs = Ok l.
Proof.
  induction gs as [|g gs IH]; intros acc Hall; simpl; [eauto|].
  apply Forall_cons in Hall as [Hg Hall]. destruct g; try done. by apply IH.
Qed.

Lemma whitelist_configured_Some options wl n :
  feature_whitelist options = Some wl → n ∈ wl → whitelist_configured options = Some wl.
Proof.
  unfold whitelist_configured. intros -> Hin.
  destruct wl; [by apply elem_of_nil in Hin|done].
Qed.

Lemma whitelist_configured_inv options wl :
  whitelist_configured options = Some wl → feature_whitelist options = Some wl ∧ wl ≠ [].
Proof.
  unfold whitelist_configured. destruct (feature_whitelist options) as [[|??]|]; naive_solver.
Qed.




(** C10: with valid generators, a whitelist name that the batch built from
    the examples lacks makes [generate_statistics_in_memory] raise
    [KeyError] right after the batch is built, whereas [_filter_features]
    returns for every batch, keeping the whitelisted features the batch has
    and skipping the other names. *)
Theorem in_memory_whitelist_missing_feature rt examples options wl n :
  (∀ gs, generators options = Some gs → Forall (λ g, is_combiner g = true) gs) →
  feature_whitelist options = Some wl →
  n ∈ wl →
  merge_single_batch rt examples !! n = None →
  (∃ k, k ∈ wl ∧ merge_single_batch rt examples !! k = None
      ∧ generate_statistics_in_memory rt examples options
        = ([ev_merge_single_batch examples], Raise (KeyError k)))
  ∧ (∀ batch, ∃ filtered,
        _filter_features batch wl = Ok filtered
        ∧ ∀ m, filtered !! m = if decide (m ∈ wl) then batch !! m else None).
Proof.
  intros Hgens Hwl Hin Hn. split; [|intros batch; apply filter_features_spec].
  destruct (whitelist_batch_into_missing wl ∅ (merge_single_batch rt examples))
    as (k & ? & ? & Hraise); [by exists n|].
  exists k. split_and!; [done..|].
  unfold generate_statistics_in_memory.
  assert (∃ l, in_memory_generators rt options = Ok l) as [l ->].
  { unfold in_memory_generators. destruct (generators options) as [gs|] eqn:Hgs; [|eauto].
    by apply append_combiners_Ok, Hgens. }
  rewrite (whitelist_configured_Some _ _ _ Hwl Hin), Hraise. done.
Qed.


End entry_points.

(** * The entry points on the sample runtime *)






Lemma in_memory_whitelist_missing_feature_witness :
  (∃ k, k ∈ ["A"; "Z"] ∧ merge_single_batch sample_runtime [example_ABC] !! k = None
      ∧ generate_statistics_in_memory sample_runtime [example_ABC] (options_whitelist ["A"; "Z"])
        = ([ev_merge_single_batch [example_ABC]], Raise (KeyError k)))
  ∧ (∀ batch : gmap string nat, ∃ filtered,
        _filter_features batch ["A"; "Z"] = Ok filtered
        ∧ ∀ m, filtered !! m = if decide (m ∈ ["A"; "Z"]) then batch !! m else None).
Proof.
  apply (in_memory_whitelist_missing_feature sample_runtime [example_ABC]
    (options_whitelist ["A"; "Z"]) ["A"; "Z"] "Z").
  - intros gs Hgs. discriminate Hgs.
  - reflexivity.
  - apply list_elem_of_further, list_elem_of_here.
  - reflexivity.
Defined.


(** * More on the whitelist comprehensions *)

Section whitelist_properties.
Context {Column : Type}.
Implicit Types (batch acc : gmap string Column) (wl : list string).

Lemma filter_features_lookup batch wl filtered n :
  _filter_features batch wl = Ok filtered →
  filtered !! n = if decide (n ∈ wl) then batch !! n else None.
Proof.
  destruct (filter_features_spec batch wl) as (out & -> & Hout).
  intros ?; simplify_eq. apply Hout.
Qed.

Lemma filter_features_same_names batch wl wl' :
  (∀ n, n ∈ wl ↔ n ∈ wl') →
  _filter_features batch wl = _filter_features batch wl'.
Proof.
  intros Hsame.
  destruct (filter_features_spec batch wl) as (out & Hout & Hl).
  destruct (filter_features_spec batch wl') as (out' & Hout' & Hl').
  rewrite Hout, Hout'. f_equal. apply map_eq. intros n. rewrite Hl, Hl'.
  destruct (decide (n ∈ wl)) as [Hin|Hnin].
  - by rewrite decide_True by (by apply Hsame).
  - by rewrite decide_False by (by rewrite <- Hsame).
Qed.

(** X1: the dict [_filter_features] returns depends only on which names the
    whitelist holds, not on their order or on repetitions. *)
Theorem filter_features_whitelist_as_set batch wl wl' :
  (∀ n, n ∈ wl ↔ n ∈ wl') →
  _filter_features batch wl = _filter_features batch wl'.
Proof. apply filter_features_same_names. Qed.

(** X2: filtering twice is filtering once by the names of both whitelists;
    in particular filtering is idempotent. *)
Theorem filter_features_compose batch wl1 wl2 :
  (_filter_features batch wl1 ≫= λ b, _filter_features b wl2)
    = _filter_features batch (filter (.∈ wl2) wl1)
  ∧ (_filter_features batch wl1 ≫= λ b, _filter_features b wl1)
    = _filter_features batch wl1.
Proof.
  destruct (filter_features_spec batch wl1) as (f1 & Hf1 & Hl1).
  assert (∀ wl, (_filter_features batch wl1 ≫= λ b, _filter_features b wl)
                = _filter_features batch (filter (.∈ wl) wl1)) as Hcomp.
  { intros wl. rewrite Hf1. cbn [mbind result_bind].
    destruct (filter_features_spec f1 wl) as (f2 & -> & Hl2).
    destruct (filter_features_spec batch (filter (.∈ wl) wl1)) as (f12 & -> & Hl12).
    f_equal. apply map_eq. intros n. rewrite Hl2, Hl12, Hl1.
    destruct (decide (n ∈ wl)) as [Hin2|Hnin2], (decide (n ∈ wl1)) as [Hin1|Hnin1].
    - by rewrite decide_True by (by apply list_elem_of_filter).
    - by rewrite decide_False by (by intros [_ ?]%list_elem_of_filter).
    - by rewrite decide_False by (by intros [? _]%list_elem_of_filter).
    - by rewrite decide_False by (by intros [? _]%list_elem_of_filter). }
  split; [apply Hcomp|]. rewrite Hcomp.
  apply filter_features_same_names. intros n. rewrite list_elem_of_filter. tauto.
Qed.

(** X3: the dict [_filter_features] returns is a sub-dict of the batch: it
    has the batch's value wherever it has a key, its keys are the batch's
    keys that are whitelisted, and it is the whole batch when every key of
    the batch is whitelisted. *)
Theorem filter_features_is_restriction batch wl :
  ∃ filtered,
    _filter_features batch wl = Ok filtered
    ∧ filtered ⊆ batch
    ∧ (∀ n, is_Some (filtered !! n) ↔ is_Some (batch !! n) ∧ n ∈ wl)
    ∧ ((∀ n, is_Some (batch !! n) → n ∈ wl) → filtered = batch).
Proof.
  destruct (filter_features_spec batch wl) as (out & Hout & Hl).
  exists out. split_and!; [done| | |].
  - apply map_subseteq_spec. intros n v. rewrite Hl. by case_decide.
  - intros n. rewrite Hl. case_decide; [tauto|]. split; [by intros [? ?]|tauto].
  - intros Hall. apply map_eq. intros n. rewrite Hl.
    case_decide as Hn; [done|]. destruct (batch !! n) eqn:Hb; [|done].
    exfalso. apply Hn, Hall. by rewrite Hb.
Qed.

Lemma whitelist_batch_into_present wl : ∀ acc batch,
  Forall (λ n, is_Some (batch !! n)) wl →
  whitelist_batch_into acc batch wl = filter_features_into acc batch wl.
Proof.
  induction wl as [|k wl IH]; intros acc batch Hall; [done|].
  apply Forall_cons in Hall as [[v Hk] Hall].
  cbn [whitelist_batch_into filter_features_into]. unfold contains, getitem.
  rewrite Hk, bool_decide_true by eauto. cbn [mbind result_bind]. by apply IH.
Qed.

Lemma whitelist_batch_into_first_missing wl : ∀ acc batch pre k post,
  wl = pre ++ k :: post →
  Forall (λ n, is_Some (batch !! n)) pre →
  batch !! k = None →
  whitelist_batch_into acc batch wl = Raise (KeyError k).
Proof.
  intros acc batch pre. revert acc wl.
  induction pre as [|p pre IH]; intros acc wl k post -> Hpre Hk.
  - simpl. unfold getitem. by rewrite Hk.
  - apply Forall_cons in Hpre as [[v Hp] Hpre].
    cbn [app whitelist_batch_into]. unfold getitem. rewrite Hp. cbn [mbind result_bind].
    by eapply IH.
Qed.

(** X4: the comprehension of [generate_statistics_in_memory] and
    [_filter_features] agree when the batch has every whitelisted feature;
    otherwise the comprehension raises [KeyError] for the first whitelist
    name the batch lacks, where [_filter_features] still returns. *)
Theorem in_memory_whitelist_agrees_with_filter batch wl :
  (Forall (λ n, is_Some (batch !! n)) wl →
   whitelist_batch_into ∅ batch wl = _filter_features batch wl)
  ∧ (∀ pre k post, wl = pre ++ k :: post →
       Forall (λ n, is_Some (batch !! n)) pre → batch !! k = None →
       whitelist_batch_into ∅ batch wl = Raise (KeyError k)
       ∧ ∃ filtered, _filter_features batch wl = Ok filtered).
Proof.
  split.
  - apply whitelist_batch_into_present.
  - intros pre k post Hwl Hpre Hk. split.
    + by eapply whitelist_batch_into_first_missing.
    + destruct (filter_features_spec batch wl) as (out & ? & _). eauto.
Qed.

End whitelist_properties.

Lemma filter_features_whitelist_as_set_witness :
  _filter_features (<["A" := 1]> (<["B" := 2]> (∅ : gmap string nat))) ["A"; "B"; "A"]
  = _filter_features (<["A" := 1]> (<["B" := 2]> (∅ : gmap string nat))) ["B"; "A"].
Proof.
  apply (filter_features_whitelist_as_set (Column := nat)).
  intros n. rewrite !elem_of_cons. rewrite !elem_of_nil. tauto.
Defined.

Lemma in_memory_whitelist_agrees_with_filter_witness :
  whitelist_batch_into ∅ (<["A" := 1]> (<["B" := 2]> (∅ : gmap string nat))) ["B"; "A"]
    = _filter_features (<["A" := 1]> (<["B" := 2]> (∅ : gmap string nat))) ["B"; "A"]
  ∧ whitelist_batch_into ∅ (<["A" := 1]> (<["B" := 2]> (∅ : gmap string nat))) ["A"; "Z"; "B"]
    = Raise (KeyError "Z").
Proof.
  split.
  - apply (in_memory_whitelist_agrees_with_filter (Column := nat)).
    repeat constructor; by eexists.
  - destruct (in_memory_whitelist_agrees_with_filter (Column := nat)
      (<["A" := 1]> (<["B" := 2]> ∅)) ["A"; "Z"; "B"]) as [_ Hmissing].
    destruct (Hmissing ["A"] "Z" ["B"]) as [Hraise _].
    + reflexivity.
    + repeat constructor. by eexists.
    + reflexivity.
    + exact Hraise.
Defined.


(** * More on [_merge_dataset_feature_stats_protos] *)

Lemma merge_store_and_result stats_protos σ' res :
  (_merge_dataset_feature_stats_protos stats_protos).1 = σ' →
  (_merge_dataset_feature_stats_protos stats_protos).2 = res →
  _merge_dataset_feature_stats_protos stats_protos = (σ', res).
Proof. destruct (_merge_dataset_feature_stats_protos stats_protos). simpl. congruence. Qed.

(** X5: merging the report a merge returned, alone, returns that very report
    and leaves it unchanged: the merge is idempotent on its own output. *)
Theorem merge_of_merged_report (stats_protos : store) result :
  (_merge_dataset_feature_stats_protos stats_protos).2 = Ok result →
  _merge_dataset_feature_stats_protos [result] = ([result], Ok result).
Proof.
  rewrite merge_result. intros Hfin.
  pose proof Hfin as [Hfs _]%finish_Ok.
  assert (all_features [result] = features result) as Hall
    by (unfold all_features; simpl; by rewrite app_nil_r).
  assert (NoDup (name <$> features result)) as Hnd
    by (rewrite Hfs; apply merged_entries_names_NoDup).
  apply merge_store_and_result.
  - apply merge_store_distinct. by rewrite Hall.
  - rewrite merge_result, Hall, merged_entries_distinct by done. by rewrite Hfs.
Qed.

Lemma merge_of_merged_report_witness :
  _merge_dataset_feature_stats_protos
    [{| dataset_name := ""; num_examples := 2;
        features := [MergeFrom (numeric_entry "x" 1 0) (numeric_entry "x" 2 0);
                     string_entry "y" 2 0] |}]
  = ([{| dataset_name := ""; num_examples := 2;
         features := [MergeFrom (numeric_entry "x" 1 0) (numeric_entry "x" 2 0);
                      string_entry "y" 2 0] |}],
     Ok {| dataset_name := ""; num_examples := 2;
           features := [MergeFrom (numeric_entry "x" 1 0) (numeric_entry "x" 2 0);
                        string_entry "y" 2 0] |}).
Proof.
  apply (merge_of_merged_report
    [report [numeric_entry "x" 1 0; string_entry "y" 2 0]; report [numeric_entry "x" 2 0]]).
  reflexivity.
Defined.

(** ** When the merge raises *)

Lemma looked_up_is_common_stats f c :
  looked_up_common_stats f = Some c → common_stats f = Some c.
Proof.
  unfold looked_up_common_stats, common_stats, WhichOneof, get_num_stats, get_string_stats.
  by destruct (stats f).
Qed.

Lemma merge_N_cases d s : merge_N d s = d ∨ merge_N d s = s.
Proof. unfold merge_N. case_match; eauto. Qed.

Lemma merge_msg_counts B (d s : option CommonStatistics) c :
  (∀ c', d = Some c' → (num_non_missing c' ≤ B)%N ∧ (num_missing c' ≤ B)%N) →
  (∀ c', s = Some c' → (num_non_missing c' ≤ B)%N ∧ (num_missing c' ≤ B)%N) →
  merge_msg CommonStatistics_MergeFrom d s = Some c →
  (num_non_missing c ≤ B)%N ∧ (num_missing c ≤ B)%N.
Proof.
  intros Hd Hs. destruct s as [cs|], d as [cd|]; simpl; intros ?; simplify_eq; eauto.
  destruct (Hd cd eq_refl), (Hs cs eq_refl). simpl.
  destruct (merge_N_cases (num_non_missing cd) (num_non_missing cs)) as [->| ->],
           (merge_N_cases (num_missing cd) (num_missing cs)) as [->| ->]; done.
Qed.

Lemma MergeFrom_counts_within B a e :
  counts_within B a → counts_within B e → counts_within B (MergeFrom a e).
Proof.
  unfold counts_within, common_stats. intros Ha He c. simpl.
  destruct (stats e) as [|se|se|se|se], (stats a) as [|sa|sa|sa|sa]; simpl;
    eauto using merge_msg_counts.
Qed.

Lemma foldl_MergeFrom_counts_within B e rest :
  counts_within B e → Forall (counts_within B) rest →
  counts_within B (foldl MergeFrom e rest).
Proof.
  revert e. induction rest as [|x rest IH]; intros e He Hrest; [done|].
  apply Forall_cons in Hrest as [Hx Hrest]. simpl.
  apply IH; [by apply MergeFrom_counts_within|done].
Qed.

Lemma merged_entries_counts_within B es a :
  Forall (counts_within B) es → a ∈ merged_entries es → counts_within B a.
Proof.
  intros Hes (e & rest & Hnamed & ->)%merged_entry_spec.
  assert (Forall (counts_within B) (e :: rest)) as Hall.
  { rewrite <- Hnamed. apply Forall_forall. intros x [_ Hx]%list_elem_of_filter.
    revert x Hx. by apply Forall_forall. }
  apply Forall_cons in Hall as [? ?]. by apply foldl_MergeFrom_counts_within.
Qed.

(** X6: the merge has one way to fail: it raises exactly when the total
    derived from the first consulted common sub-record exceeds the largest
    [uint64], and the exception is then [ValueError]. *)
Theorem merge_raises_iff (stats_protos : store) e :
  (_merge_dataset_feature_stats_protos stats_protos).2 = Raise e ↔
  e = ValueError
  ∧ ∃ c, head (omap looked_up_common_stats (merged_entries (all_features stats_protos)))
         = Some c
         ∧ (uint64_max < num_non_missing c + num_missing c)%N.
Proof.
  rewrite merge_result. unfold finish, derived_num_examples, set_num_examples.
  destruct (head _) as [c|]; simpl.
  - fold (total_count c). destruct (N.leb_spec (total_count c) uint64_max) as [Hle|Hgt].
    + split; [done|]. intros (_ & c' & ? & Hlt). simplify_eq. unfold total_count in Hle. lia.
    + split.
      * intros ?; simplify_eq. split; [done|]. exists c. by split.
      * by intros (-> & _).
  - split; [done|]. by intros (_ & c & ? & _).
Qed.

(** X7: when both presence counts of every common sub-record of the inputs
    are below [2^63], the merge returns a report. *)
Theorem merge_returns_for_bounded_counts (stats_protos : store) :
  (∀ stats_proto f, stats_proto ∈ stats_protos → f ∈ features stats_proto →
     counts_within (2 ^ 63 - 1) f) →
  ∃ result, (_merge_dataset_feature_stats_protos stats_protos).2 = Ok result.
Proof.
  intros Hbound. apply merge_returns. intros f c Hf Hc%looked_up_is_common_stats.
  assert (Forall (counts_within (2 ^ 63 - 1)) (all_features stats_protos)) as Hall.
  { apply Forall_forall. intros f' (r & ? & ?)%elem_of_all_features. by eapply Hbound. }
  destruct (merged_entries_counts_within _ _ _ Hall Hf c Hc) as [H1 H2].
  unfold total_count, uint64_max. lia.
Qed.

Lemma merge_returns_for_bounded_counts_witness :
  ∃ result,
    (_merge_dataset_feature_stats_protos
       [report [numeric_entry "x" 7 1]; report [string_entry "x" 0 3]]).2 = Ok result.
Proof.
  apply (merge_returns_for_bounded_counts
    [report [numeric_entry "x" 7 1]; report [string_entry "x" 0 3]]).
  intros stats_proto f Hr Hf c Hc.
  apply list_elem_of_In in Hr. simpl in Hr.
  destruct Hr as [<-|[<-|[]]]; apply list_elem_of_In in Hf; simpl in Hf;
    destruct Hf as [<-|[]]; simpl in Hc; injection Hc as <-; simpl; lia.
Defined.

(** ** What the merge leaves alone in its inputs *)

Lemma dict_get_Some_in (d : dict) k r : dict_get d k = Some r → (k, r) ∈ d.
Proof.
  induction d as [|[k' v] d IH]; simpl; [done|].
  case_decide; intros ?; simplify_eq; [apply list_elem_of_here|].
  by apply list_elem_of_further, IH.
Qed.

Lemma update_outline g r (σ : store) :
  (∀ a, deref σ r = Some a → name (g a) = name a) →
  outline <$> update g r σ = outline <$> σ.
Proof.
  destruct r as [i j]. intros Hname. unfold update. cbn [fst snd].
  apply list_eq. intros k. rewrite !list_lookup_fmap.
  destruct (decide (i = k)) as [<-|Hne]; [|by rewrite list_lookup_alter_ne].
  rewrite list_lookup_alter_eq. destruct (σ !! i) as [d|] eqn:Hd; [|done].
  cbn [fmap option_fmap option_map]. f_equal. unfold outline, with_features. cbn [dataset_name num_examples features].
  f_equal. apply list_eq. intros m. rewrite !list_lookup_fmap.
  destruct (decide (j = m)) as [<-|Hnm]; [|by rewrite list_lookup_alter_ne].
  rewrite list_lookup_alter_eq. destruct (features d !! j) as [a|] eqn:Ha; [|done].
  cbn [fmap option_fmap option_map]. f_equal. apply Hname.
  unfold deref. cbn [fst snd]. rewrite Hd. by cbn [mbind option_bind].
Qed.

Lemma merge_step_outline σ0 p σ d r :
  loop_inv σ0 p σ d →
  outline <$> (merge_step (σ, d) r).1 = outline <$> σ.
Proof.
  intros (Hd & _). unfold merge_step. cbn [fst snd].
  destruct (deref σ r) as [e|]; [|done].
  destruct (dict_get d (name e)) as [r0|] eqn:Hget; [|done].
  cbn [fst]. apply update_outline. intros a Ha. apply MergeFrom_name.
  apply dict_get_Some_in, list_elem_of_lookup in Hget as [i Hi].
  destruct (Forall2_lookup_l _ _ _ _ _ Hd Hi) as (a' & _ & Hk & Hr).
  cbn [fst snd] in Hk, Hr. congruence.
Qed.

Lemma merge_loop_outline σ0 q : ∀ p σ d,
  loop_inv σ0 p σ d → NoDup (p ++ q) →
  outline <$> (foldl merge_step (σ, d) q).1 = outline <$> σ.
Proof.
  induction q as [|r q IH]; intros p σ d Hinv Hnd; [done|].
  cbn [foldl]. rewrite (assoc_L _ p [r] q : p ++ r :: q = (p ++ [r]) ++ q) in Hnd.
  pose proof (merge_step_outline σ0 p σ d r Hinv) as Hstep.
  pose proof (merge_step_inv σ0 p σ d r Hinv) as Hnext.
  destruct (merge_step (σ, d) r) as [σ1 d1]. cbn [fst snd] in *.
  rewrite <- Hstep. apply (IH (p ++ [r])); [|done].
  apply Hnext. apply NoDup_app in Hnd as (Hnd & _ & _).
  apply NoDup_app in Hnd as (_ & Hdisj & _).
  intros Hin. apply (Hdisj _ Hin), list_elem_of_here.
Qed.

(** X8: whatever it does to the contents of input entries, the merge never
    adds, removes or renames an entry of an input report, and never changes
    a report's own fields. *)
Theorem merge_keeps_input_outline (stats_protos : store) :
  outline <$> (_merge_dataset_feature_stats_protos stats_protos).1
  = outline <$> stats_protos.
Proof.
  unfold _merge_dataset_feature_stats_protos.
  pose proof (merge_loop_outline stats_protos (positions stats_protos) [] _ _
    (loop_inv_init stats_protos) (NoDup_positions_from 0 stats_protos)) as Hout.
  destruct (foldl merge_step _ _) as [σ d]. cbn [fst] in Hout.
  by destruct (foldl (collect_step σ) _ _).
Qed.

(** ** The fields of a merged entry *)

Lemma foldl_MergeFrom_WhichOneof_last e rest :
  WhichOneof (foldl MergeFrom e rest) = last (omap WhichOneof (e :: rest)).
Proof.
  induction rest as [|x rest IH] using rev_ind.
  - cbn. by destruct (WhichOneof e).
  - rewrite foldl_app. cbn [foldl]. rewrite MergeFrom_WhichOneof, IH.
    rewrite app_comm_cons, omap_app. cbn [omap list_omap].
    destruct (WhichOneof x) as [c|]; cbn.
    + by rewrite last_snoc.
    + by rewrite app_nil_r.
Qed.

Lemma foldl_MergeFrom_custom_stats e rest :
  custom_stats (foldl MergeFrom e rest) = (e :: rest) ≫= custom_stats.
Proof.
  induction rest as [|x rest IH] using rev_ind.
  - cbn. by rewrite app_nil_r.
  - rewrite foldl_app. cbn [foldl MergeFrom custom_stats]. rewrite IH.
    rewrite app_comm_cons, bind_app. cbn. by rewrite app_nil_r.
Qed.

(** X9: an entry of the merged report carries the kind tag of the last
    tagged input entry of its name (none when all are untagged) and the
    custom statistics of all input entries of its name, in iteration order. *)
Theorem merged_entry_fields (stats_protos : store) result f :
  (_merge_dataset_feature_stats_protos stats_protos).2 = Ok result →
  f ∈ features result →
  WhichOneof f
    = last (omap WhichOneof (entries_named (name f) (all_features stats_protos)))
  ∧ custom_stats f
    = entries_named (name f) (all_features stats_protos) ≫= custom_stats.
Proof.
  rewrite merge_result. intros [-> _]%finish_Ok (e & rest & Hnamed & Hf)%merged_entry_spec.
  rewrite Hnamed, Hf.
  split; [apply foldl_MergeFrom_WhichOneof_last|apply foldl_MergeFrom_custom_stats].
Qed.

Lemma merged_entry_fields_witness :
  WhichOneof (string_entry "x" 1 0)
    = last (omap WhichOneof (entries_named (name (string_entry "x" 1 0))
        (all_features [report [numeric_entry "x" 1 0]; report [string_entry "x" 1 0]])))
  ∧ custom_stats (string_entry "x" 1 0)
    = entries_named (name (string_entry "x" 1 0))
        (all_features [report [numeric_entry "x" 1 0]; report [string_entry "x" 1 0]])
      ≫= custom_stats.
Proof.
  apply (merged_entry_fields
    [report [numeric_entry "x" 1 0]; report [string_entry "x" 1 0]]
    {| dataset_name := ""; num_examples := 1; features := [string_entry "x" 1 0] |}).
  - reflexivity.
  - apply list_elem_of_here.
Defined.

(** ** Merging partial merges *)

Lemma merge_N_assoc d a e : merge_N (merge_N d a) e = merge_N d (merge_N a e).
Proof. unfold merge_N. destruct (e =? 0)%N eqn:He; [done|]. by rewrite He. Qed.

Lemma merge_string_assoc d a e :
  merge_string (merge_string d a) e = merge_string d (merge_string a e).
Proof.
  unfold merge_string. destruct (decide (e = ""%string)) as [He|He]; [done|].
  by rewrite decide_False.
Qed.

Lemma merge_type_assoc d a e : merge_type (merge_type d a) e = merge_type d (merge_type a e).
Proof. by destruct e, a. Qed.

Lemma CommonStatistics_MergeFrom_assoc d a e :
  CommonStatistics_MergeFrom (CommonStatistics_MergeFrom d a) e
  = CommonStatistics_MergeFrom d (CommonStatistics_MergeFrom a e).
Proof. unfold CommonStatistics_MergeFrom. simpl. by rewrite !merge_N_assoc. Qed.

Lemma merge_msg_common_assoc (d a e : option CommonStatistics) :
  merge_msg CommonStatistics_MergeFrom (merge_msg CommonStatistics_MergeFrom d a) e
  = merge_msg CommonStatistics_MergeFrom d (merge_msg CommonStatistics_MergeFrom a e).
Proof.
  destruct d, a, e; simpl; try done. by rewrite CommonStatistics_MergeFrom_assoc.
Qed.

Lemma Stats_MergeFrom_assoc d a e :
  (a = stats_not_set ∨ e = stats_not_set
   ∨ match a, e with
     | num_stats _, num_stats _ | string_stats _, string_stats _
     | bytes_stats _, bytes_stats _ | struct_stats _, struct_stats _ => True
     | _, _ => False
     end) →
  Stats_MergeFrom (Stats_MergeFrom d a) e = Stats_MergeFrom d (Stats_MergeFrom a e).
Proof.
  intros Hkind.
  destruct e as [|se|se|se|se], a as [|sa|sa|sa|sa], d as [|sd|sd|sd|sd];
    simpl; try done; try (exfalso; by destruct Hkind as [?|[?|?]]);
    f_equal;
    unfold NumericStatistics_MergeFrom, StringStatistics_MergeFrom,
      BytesStatistics_MergeFrom, StructStatistics_MergeFrom; simpl;
    by rewrite ?merge_msg_common_assoc, ?merge_N_assoc.
Qed.

Lemma MergeFrom_assoc m a e :
  same_kind a e → MergeFrom (MergeFrom m a) e = MergeFrom m (MergeFrom a e).
Proof.
  intros Hkind. unfold MergeFrom. simpl.
  rewrite merge_string_assoc, merge_type_assoc, Stats_MergeFrom_assoc, app_assoc; [done|].
  unfold same_kind, WhichOneof in Hkind.
  destruct (stats a), (stats e); cbn in *;
    first [by left | by right; left | by right; right
          | exfalso; destruct Hkind as [?|[?|?]]; congruence].
Qed.

Lemma merge_into_merged m a e :
  name a = name e → same_kind a e →
  merge_into (merge_into m a) e = merge_into m (MergeFrom a e).
Proof.
  intros Hname Hkind. induction m as [|x m IH]; cbn [merge_into].
  - by rewrite decide_True.
  - rewrite (MergeFrom_name a e Hname).
    destruct (decide (name x = name a)) as [Hx|Hx]; cbn [merge_into].
    + rewrite decide_True by (rewrite MergeFrom_name by done; congruence).
      by rewrite MergeFrom_assoc.
    + rewrite decide_False by congruence. by rewrite IH.
Qed.

Lemma merge_into_cons_eq n m e :
  name n = name e → merge_into (n :: m) e = MergeFrom n e :: m.
Proof. intros ?. cbn [merge_into]. by rewrite decide_True. Qed.

Lemma merge_into_cons_ne n m e :
  name n ≠ name e → merge_into (n :: m) e = n :: merge_into m e.
Proof. intros ?. cbn [merge_into]. by rewrite decide_False. Qed.

Lemma merge_into_swap m x e :
  name x ≠ name e → name e ∈ name <$> m →
  merge_into (merge_into m e) x = merge_into (merge_into m x) e.
Proof.
  intros Hne. induction m as [|n m IH]; [by intros ?%elem_of_nil|].
  rewrite fmap_cons, elem_of_cons. intros Hin.
  destruct (decide (name n = name e)) as [He|He].
  - rewrite (merge_into_cons_eq n m e He).
    rewrite (merge_into_cons_ne n m x) by congruence.
    rewrite merge_into_cons_ne by (rewrite MergeFrom_name by done; congruence).
    by rewrite merge_into_cons_eq.
  - rewrite (merge_into_cons_ne n m e He).
    destruct (decide (name n = name x)) as [Hx|Hx].
    + rewrite !(merge_into_cons_eq n _ x) by done.
      rewrite merge_into_cons_ne; [done|]. rewrite MergeFrom_name by done. congruence.
    + rewrite !(merge_into_cons_ne n _ x) by done.
      rewrite merge_into_cons_ne by done. rewrite IH; [done|].
      destruct Hin as [?|?]; [congruence|done].
Qed.

Lemma merge_into_name_elem m e : name e ∈ name <$> merge_into m e.
Proof.
  rewrite merge_into_names. case_decide; [done|].
  apply elem_of_app. right. apply list_elem_of_here.
Qed.

Lemma merge_into_name_mono m x n : n ∈ name <$> m → n ∈ name <$> merge_into m x.
Proof.
  rewrite merge_into_names. case_decide; [done|]. intros ?. apply elem_of_app. by left.
Qed.

Lemma foldl_merge_into_late l : ∀ m e,
  name e ∈ name <$> m → name e ∉ name <$> l →
  foldl merge_into (merge_into m e) l = merge_into (foldl merge_into m l) e.
Proof.
  induction l as [|x l IH]; intros m e Hin Hnin; [done|].
  rewrite fmap_cons, not_elem_of_cons in Hnin. destruct Hnin as [Hne Hnin].
  cbn [foldl]. rewrite merge_into_swap by done.
  apply IH; [by apply merge_into_name_mono|done].
Qed.

Lemma foldl_merge_into_merged l : ∀ m e,
  NoDup (name <$> l) →
  (∀ a, a ∈ l → name a = name e → same_kind a e) →
  foldl merge_into m (merge_into l e) = merge_into (foldl merge_into m l) e.
Proof.
  induction l as [|a l IH]; intros m e Hnd Hkind; [done|].
  rewrite fmap_cons, NoDup_cons in Hnd. destruct Hnd as [Hnin Hnd].
  cbn [merge_into]. destruct (decide (name a = name e)) as [Heq|Hne]; cbn [foldl].
  - rewrite <- merge_into_merged;
      [|done|apply Hkind; [apply list_elem_of_here|done]].
    apply foldl_merge_into_late; [rewrite <- Heq; apply merge_into_name_elem|by rewrite <- Heq].
  - apply IH; [done|]. intros a' ?. apply Hkind. by apply list_elem_of_further.
Qed.

Lemma foldl_MergeFrom_same_kind e0 rest e :
  Forall (λ x, same_kind x e) (e0 :: rest) → same_kind (foldl MergeFrom e0 rest) e.
Proof.
  intros Hall. unfold same_kind. rewrite foldl_MergeFrom_WhichOneof_last.
  destruct (last (omap WhichOneof (e0 :: rest))) as [c|] eqn:Hlast; [|by left].
  apply last_Some_elem_of, list_elem_of_omap in Hlast as (x & Hx & Hc).
  rewrite Forall_forall in Hall. destruct (Hall x Hx) as [?|[?|?]]; [congruence|by right; left|].
  right; right. congruence.
Qed.

Lemma foldl_merge_into_merged_entries es : ∀ m,
  (∀ e e', e ∈ es → e' ∈ es → name e = name e' → same_kind e e') →
  foldl merge_into m (merged_entries es) = foldl merge_into m es.
Proof.
  induction es as [|e es IH] using rev_ind; intros m Hkind; [done|].
  rewrite merged_entries_snoc, foldl_app. cbn [foldl].
  rewrite foldl_merge_into_merged.
  - rewrite IH; [done|]. intros x y ??. apply Hkind; apply elem_of_app; by left.
  - apply merged_entries_names_NoDup.
  - intros a (e0 & rest & Hnamed & ->)%merged_entry_spec Hname.
    apply foldl_MergeFrom_same_kind. rewrite <- Hnamed.
    apply Forall_forall. intros x [Hxn Hx]%list_elem_of_filter.
    apply Hkind; [apply elem_of_app; by left|apply elem_of_app; right; apply list_elem_of_here|].
    congruence.
Qed.

Lemma merged_entries_app xs ys :
  merged_entries (xs ++ ys) = foldl merge_into (merged_entries xs) ys.
Proof. unfold merged_entries. by rewrite foldl_app. Qed.

(** X10: merging the reports of two partial merges gives what merging all
    their inputs at once gives, provided the inputs of the second group do
    not tag one feature name with different kinds. *)
Theorem merge_of_partial_merges (group1 group2 : store) result1 result2 :
  (_merge_dataset_feature_stats_protos group1).2 = Ok result1 →
  (_merge_dataset_feature_stats_protos group2).2 = Ok result2 →
  (∀ e e', e ∈ all_features group2 → e' ∈ all_features group2 →
     name e = name e' → same_kind e e') →
  (_merge_dataset_feature_stats_protos [result1; result2]).2
  = (_merge_dataset_feature_stats_protos (group1 ++ group2)).2.
Proof.
  rewrite !merge_result. intros [H1 _]%finish_Ok [H2 _]%finish_Ok Hkind. f_equal.
  assert (all_features [result1; result2] = features result1 ++ features result2) as ->
    by (unfold all_features; simpl; by rewrite app_nil_r).
  assert (all_features (group1 ++ group2) = all_features group1 ++ all_features group2) as ->
    by (unfold all_features; by rewrite bind_app).
  rewrite !merged_entries_app, H1, H2.
  rewrite (merged_entries_distinct (merged_entries _)) by apply merged_entries_names_NoDup.
  by apply foldl_merge_into_merged_entries.
Qed.

Lemma merge_of_partial_merges_witness :
  (_merge_dataset_feature_stats_protos
     [{| dataset_name := ""; num_examples := 2;
         features := [MergeFrom (numeric_entry "x" 1 0) (numeric_entry "x" 2 0)] |};
      {| dataset_name := ""; num_examples := 3;
         features := [string_entry "y" 3 0; numeric_entry "x" 4 0] |}]).2
  = (_merge_dataset_feature_stats_protos
       ([report [numeric_entry "x" 1 0]; report [numeric_entry "x" 2 0]]
        ++ [report [string_entry "y" 3 0]; report [numeric_entry "x" 4 0]])).2.
Proof.
  apply (merge_of_partial_merges
    [report [numeric_entry "x" 1 0]; report [numeric_entry "x" 2 0]]
    [report [string_entry "y" 3 0]; report [numeric_entry "x" 4 0]]).
  - reflexivity.
  - reflexivity.
  - intros e e' He He' Hname.
    apply list_elem_of_In in He, He'. simpl in He, He'.
    destruct He as [<-|[<-|[]]], He' as [<-|[<-|[]]];
      first [discriminate Hname | right; right; reflexivity].
Defined.

(** X18: merging any number of reports that have no feature entry returns
    the empty report, with [num_examples] unset, and leaves the inputs as
    they are. *)
Theorem merge_of_featureless_reports (stats_protos : store) :
  Forall (λ d, features d = []) stats_protos →
  _merge_dataset_feature_stats_protos stats_protos
  = (stats_protos, Ok new_DatasetFeatureStatistics).
Proof.
  intros Hempty.
  assert (all_features stats_protos = []) as Hall.
  { unfold all_features. induction Hempty as [|d σ Hd _ IH]; [done|].
    cbn. by rewrite Hd, IH. }
  apply merge_store_and_result.
  - apply merge_store_distinct. rewrite Hall. constructor.
  - by rewrite merge_result, Hall.
Qed.

Lemma merge_of_featureless_reports_witness :
  _merge_dataset_feature_stats_protos
    [report []; {| dataset_name := "train"; num_examples := 7; features := [] |}]
  = ([report []; {| dataset_name := "train"; num_examples := 7; features := [] |}],
     Ok new_DatasetFeatureStatistics).
Proof.
  apply (merge_of_featureless_reports
    [report []; {| dataset_name := "train"; num_examples := 7; features := [] |}]).
  repeat constructor.
Defined.

(** * More on the entry points *)

Section entry_point_runs.
Context {Column Example : Type}.
Implicit Types (batch : gmap string Column) (wl : list string).
Implicit Types (batches : list (gmap string Column)).
Implicit Types (rt : Runtime Column Example) (options : StatsOptions Column).

Lemma traced_bind_lift_Ok {A B} (a : A)
    (k : A → traced (Column := Column) (Example := Example) B) :
  traced_bind (lift (Ok a)) k = k a.
Proof. unfold traced_bind, lift. cbn [fst snd app]. by destruct (k a). Qed.

Lemma traced_bind_lift_Raise {A B} e
    (k : A → traced (Column := Column) (Example := Example) B) :
  traced_bind (lift (Raise e)) k = ([], Raise e).
Proof. done. Qed.

Lemma traced_bind_emit {B} ev (k : () → traced (Column := Column) (Example := Example) B) :
  traced_bind (emit ev) k = (ev :: (k ()).1, (k ()).2).
Proof. done. Qed.



Lemma filter_features_restrict batch wl :
  _filter_features batch wl = Ok (restrict_to wl batch).
Proof.
  destruct (filter_features_spec batch wl) as (out & -> & Hout). f_equal.
  apply map_eq. intros n. rewrite Hout. unfold restrict_to.
  destruct (batch !! n) as [v|] eqn:Hn.
  - case_decide as Hin.
    + symmetry. by apply map_lookup_filter_Some.
    + symmetry. apply map_lookup_filter_None. right. intros v' ?. by simplify_eq.
  - case_decide; symmetry; apply map_lookup_filter_None; by left.
Qed.

Lemma filter_batches_restrict batches wl :
  filter_batches batches wl = Ok (restrict_to wl <$> batches).
Proof.
  induction batches as [|b batches IH]; [done|].
  cbn [filter_batches]. rewrite filter_features_restrict. cbn [mbind result_bind].
  by rewrite IH.
Qed.





End entry_point_runs.


Section entry_point_outcomes.
Context {Column Example : Type}.
Implicit Types (batch : gmap string Column) (wl : list string).
Implicit Types (batches : list (gmap string Column)).
Implicit Types (rt : Runtime Column Example) (options : StatsOptions Column).






Lemma merge_Ok_shape (stats_protos : store) result :
  (_merge_dataset_feature_stats_protos stats_protos).2 = Ok result →
  dataset_name result = ""%string
  ∧ NoDup (name <$> features result)
  ∧ (num_examples result ≤ uint64_max)%N.
Proof.
  rewrite merge_result. intros Hfin. pose proof Hfin as [Hfs _]%finish_Ok.
  split_and!.
  - revert Hfin. unfold finish, set_num_examples.
    destruct (derived_num_examples _); [case_match|]; intros ?; by simplify_eq.
  - rewrite Hfs. apply merged_entries_names_NoDup.
  - revert Hfin. unfold finish, set_num_examples.
    destruct (derived_num_examples _) as [n|].
    + destruct (N.leb_spec n uint64_max); intros ?; by simplify_eq.
    + intros ?; simplify_eq. cbn. unfold uint64_max. lia.
Qed.

(** X16: a list proto returned by either entry point holds exactly one
    dataset; it is unnamed, its feature entries have pairwise distinct names
    and its [num_examples] fits [uint64]. *)
Theorem entry_points_return_one_dataset rt options examples result :
  (expand rt options examples).2 = Ok result
  ∨ (generate_statistics_in_memory rt examples options).2 = Ok result →
  ∃ d, datasets result = [d]
    ∧ dataset_name d = ""%string
    ∧ NoDup (name <$> features d)
    ∧ (num_examples d ≤ uint64_max)%N.
Proof.
  intros [Hrun|Hrun].
  - unfold expand in Hrun.
    apply traced_bind_Ok in Hrun as (stages & _ & Hrun).
    apply traced_bind_Ok in Hrun as (_ & _ & Hrun).
    apply traced_bind_Ok in Hrun as (filtered & _ & Hrun).
    apply traced_bind_Ok in Hrun as (outs & _ & Hrun).
    apply traced_bind_Ok in Hrun as (merged & Hmerged & Hret).
    cbn in Hmerged, Hret. simplify_eq. exists merged. split; [done|].
    by eapply merge_Ok_shape.
  - unfold generate_statistics_in_memory in Hrun.
    apply traced_bind_Ok in Hrun as (gens & _ & Hrun).
    apply traced_bind_Ok in Hrun as (_ & _ & Hrun).
    apply traced_bind_Ok in Hrun as (batch & _ & Hrun).
    apply traced_bind_Ok in Hrun as (outs & _ & Hrun).
    apply traced_bind_Ok in Hrun as (merged & Hmerged & Hret).
    cbn in Hmerged, Hret. simplify_eq. exists merged. split; [done|].
    by eapply merge_Ok_shape.
Qed.

Lemma restrict_to_agree wl batch batch' :
  (∀ n, n ∈ wl → batch !! n = batch' !! n) → restrict_to wl batch = restrict_to wl batch'.
Proof.
  intros Hagree. apply map_eq. intros n.
  pose proof (filter_features_lookup batch wl (restrict_to wl batch) n
    (filter_features_restrict batch wl)) as ->.
  pose proof (filter_features_lookup batch' wl (restrict_to wl batch') n
    (filter_features_restrict batch' wl)) as ->.
  case_decide; [by apply Hagree|done].
Qed.

(** X17: with a whitelist configured, what [expand] hands to the generators
    and what it returns depend on the whitelisted columns only: two datasets
    whose batches agree on every whitelisted feature give the same generator
    inputs and the same result. *)
Theorem expand_ignores_other_features rt options dataset dataset' wl :
  whitelist_configured options = Some wl →
  Forall2 (λ b b', ∀ n, n ∈ wl → b !! n = b' !! n)
    (BatchExamples rt (sample_count options) dataset)
    (BatchExamples rt (sample_count options) dataset') →
  (expand rt options dataset).2 = (expand rt options dataset').2
  ∧ batches_given <$> (expand rt options dataset).1
    = batches_given <$> (expand rt options dataset').1.
Proof.
  intros Hwl Hagree.
  assert (filter_batches (BatchExamples rt (sample_count options) dataset) wl
          = filter_batches (BatchExamples rt (sample_count options) dataset') wl) as Hsame.
  { rewrite !filter_batches_restrict. f_equal.
    induction Hagree as [|b b' bs bs' Hb _ IH]; [done|].
    rewrite !fmap_cons, IH. f_equal. by apply restrict_to_agree. }
  unfold expand. rewrite Hwl, Hsame.
  destruct (make_stages (expand_generators rt options)) as [stages|e]; [|done].
  rewrite !traced_bind_lift_Ok, !traced_bind_emit. cbn [fst snd]. by rewrite !fmap_cons.
Qed.

End entry_point_outcomes.


Lemma entry_points_return_one_dataset_witness :
  ∃ result,
    (generate_statistics_in_memory sample_runtime [example_ABC]
       (options_whitelist ["A"; "C"])).2 = Ok result
    ∧ ∃ d, datasets result = [d]
        ∧ dataset_name d = ""%string
        ∧ NoDup (name <$> features d)
        ∧ (num_examples d ≤ uint64_max)%N.
Proof.
  eexists. split; [vm_compute; reflexivity|].
  apply (entry_points_return_one_dataset sample_runtime (options_whitelist ["A"; "C"])
    [example_ABC]).
  right. vm_compute. reflexivity.
Defined.

Lemma expand_ignores_other_features_witness :
  (expand sample_runtime (options_whitelist ["A"; "C"]) [example_ABC]).2
  = (expand sample_runtime (options_whitelist ["A"; "C"])
       [<["B" := 9]> example_ABC]).2
  ∧ batches_given
      <$> (expand sample_runtime (options_whitelist ["A"; "C"]) [example_ABC]).1
    = batches_given
      <$> (expand sample_runtime (options_whitelist ["A"; "C"])
             [<["B" := 9]> example_ABC]).1.
Proof.
  apply (expand_ignores_other_features sample_runtime (options_whitelist ["A"; "C"])
    [example_ABC] [<["B" := 9]> example_ABC] ["A"; "C"]).
  - reflexivity.
  - constructor; [|constructor]. intros n Hn.
    apply list_elem_of_In in Hn. simpl in Hn.
    destruct Hn as [<-|[<-|[]]]; reflexivity.
Defined.

(** * The merge under a permutation of its inputs *)

Lemma MergeFrom_new_l e : MergeFrom new_FeatureNameStatistics e = e.
Proof.
  destruct e as [n t s cs]. unfold MergeFrom, new_FeatureNameStatistics. cbn.
  f_equal.
  - unfold merge_string. by case_decide.
  - by destruct t.
  - by destruct s.
Qed.

Lemma foldl_MergeFrom_new e rest :
  foldl MergeFrom e rest = foldl MergeFrom new_FeatureNameStatistics (e :: rest).
Proof. cbn [foldl]. by rewrite MergeFrom_new_l. Qed.

Lemma same_kind_sym a b : same_kind a b → same_kind b a.
Proof. unfold same_kind. intros [?|[?|?]]; eauto. Qed.

Lemma foldl_MergeFrom_Permutation l l' :
  l ≡ₚ l' →
  (∀ x y, x ∈ l → y ∈ l → merge_order_free x y) →
  ∀ acc, foldl MergeFrom acc l = foldl MergeFrom acc l'.
Proof.
  induction 1 as [|x l l' Hperm IH|x y l|l l' l'' Hperm IH Hperm' IH']; intros Hfree acc.
  - done.
  - cbn [foldl]. apply IH. intros a b ??. apply Hfree; by apply list_elem_of_further.
  - cbn [foldl].
    destruct (Hfree x y) as [Hkind Hcomm];
      [apply list_elem_of_further, list_elem_of_here|apply list_elem_of_here|].
    rewrite (MergeFrom_assoc acc y x); [|by apply same_kind_sym].
    rewrite (MergeFrom_assoc acc x y); [|done]. by rewrite Hcomm.
  - rewrite IH by done. apply IH'. intros a b Ha Hb.
    apply Hfree; by rewrite Hperm.
Qed.

Lemma merged_entries_Permutation_elem es es' a :
  es ≡ₚ es' →
  (∀ e e', e ∈ es → e' ∈ es → name e = name e' → merge_order_free e e') →
  a ∈ merged_entries es → a ∈ merged_entries es'.
Proof.
  intros Hperm Hfree Ha.
  assert (name a ∈ name <$> merged_entries es') as Hname.
  { apply merged_entries_names_elem. rewrite <- Hperm.
    by apply merged_entries_names_elem, list_elem_of_fmap_2. }
  apply list_elem_of_fmap in Hname as (a' & Hname & Ha').
  destruct (merged_entry_spec _ _ Ha) as (e0 & rest & Hnamed & Hfold).
  destruct (merged_entry_spec _ _ Ha') as (e0' & rest' & Hnamed' & Hfold').
  rewrite <- Hname in Hnamed'.
  assert (e0 :: rest ≡ₚ e0' :: rest') as Hgroup.
  { rewrite <- Hnamed, <- Hnamed'. unfold entries_named. by rewrite Hperm. }
  replace a with a'; [done|].
  rewrite Hfold, Hfold', (foldl_MergeFrom_new e0 rest), (foldl_MergeFrom_new e0' rest').
  symmetry.
  apply foldl_MergeFrom_Permutation; [done|].
  intros x y Hx Hy. rewrite <- Hnamed in Hx, Hy.
  apply list_elem_of_filter in Hx as [Hxn Hx], Hy as [Hyn Hy].
  apply Hfree; [done..|congruence].
Qed.

Lemma same_names_same_entries (l l' : list FeatureNameStatistics) :
  name <$> l = name <$> l' →
  NoDup (name <$> l) →
  (∀ a, a ∈ l → a ∈ l') →
  l = l'.
Proof.
  revert l'. induction l as [|a l IH]; intros [|a' l'] Hnames Hnd Hsub; try done.
  rewrite !fmap_cons in Hnames. injection Hnames as Hhead Htail.
  rewrite fmap_cons, NoDup_cons in Hnd. destruct Hnd as [Hnin Hnd].
  assert (a = a') as <-.
  { assert (a ∈ a' :: l') as Hin by apply Hsub, list_elem_of_here.
    apply elem_of_cons in Hin as [?|Hin]; [done|].
    exfalso. apply Hnin. rewrite Htail. by apply list_elem_of_fmap_2. }
  f_equal. apply IH; [done..|].
  intros x Hx.
  assert (x ∈ a :: l') as Hin by by apply Hsub, list_elem_of_further.
  apply elem_of_cons in Hin as [->|Hin]; [|done].
  exfalso. apply Hnin. by apply list_elem_of_fmap_2.
Qed.

(** C2, amended: for every permutation of the partial reports, the merged
    reports carry the same feature names, each exactly once.  When any two
    input entries of one name carry no different kind tags and [MergeFrom]
    gives the same entry in either order on them (as with disjoint fields,
    and always when no name repeats), the merged reports hold the same
    feature entries up to order, and they are equal whenever their entries
    come out under the same order of names. *)
Theorem merge_permutation_invariance (stats_protos stats_protos' : store) result result' :
  stats_protos ≡ₚ stats_protos' →
  (_merge_dataset_feature_stats_protos stats_protos).2 = Ok result →
  (_merge_dataset_feature_stats_protos stats_protos').2 = Ok result' →
  name <$> features result ≡ₚ name <$> features result'
  ∧ NoDup (name <$> features result)
  ∧ NoDup (name <$> features result')
  ∧ ((∀ e e', e ∈ all_features stats_protos → e' ∈ all_features stats_protos →
        name e = name e' → merge_order_free e e') →
     features result ≡ₚ features result'
     ∧ (name <$> features result = name <$> features result' → result = result')).
Proof.
  intros Hperm. rewrite !merge_result. intros Hfin Hfin'.
  pose proof Hfin as [Hfs _]%finish_Ok. pose proof Hfin' as [Hfs' _]%finish_Ok.
  assert (all_features stats_protos ≡ₚ all_features stats_protos') as Hall
    by (unfold all_features; by rewrite Hperm).
  rewrite Hfs, Hfs'. split_and!.
  - apply NoDup_Permutation; [apply merged_entries_names_NoDup..|].
    intros n. by rewrite !merged_entries_names_elem, Hall.
  - apply merged_entries_names_NoDup.
  - apply merged_entries_names_NoDup.
  - intros Hfree.
    assert (∀ a, a ∈ merged_entries (all_features stats_protos)
                 ↔ a ∈ merged_entries (all_features stats_protos')) as Hsame.
    { intros a. split; apply merged_entries_Permutation_elem; [done|done|done|].
      intros e e' He He'. apply Hfree; by rewrite Hall. }
    split.
    + apply NoDup_Permutation; [| |done];
        eapply NoDup_fmap_1, merged_entries_names_NoDup.
    + intros Hnames.
      assert (merged_entries (all_features stats_protos)
              = merged_entries (all_features stats_protos')) as Heq.
      { apply same_names_same_entries;
          [done|apply merged_entries_names_NoDup|intros a; apply Hsame]. }
      rewrite Heq in Hfin. rewrite Hfin in Hfin'. by injection Hfin'.
Qed.

Lemma merge_permutation_invariance_witness :
  name <$> [MergeFrom (numeric_entry "x" 3 1) (numeric_zeros_entry "x" 5)]
    ≡ₚ name <$> [MergeFrom (numeric_zeros_entry "x" 5) (numeric_entry "x" 3 1)]
  ∧ NoDup (name <$> [MergeFrom (numeric_entry "x" 3 1) (numeric_zeros_entry "x" 5)])
  ∧ NoDup (name <$> [MergeFrom (numeric_zeros_entry "x" 5) (numeric_entry "x" 3 1)])
  ∧ [MergeFrom (numeric_entry "x" 3 1) (numeric_zeros_entry "x" 5)]
      ≡ₚ [MergeFrom (numeric_zeros_entry "x" 5) (numeric_entry "x" 3 1)]
  ∧ {| dataset_name := ""; num_examples := 4;
       features := [MergeFrom (numeric_entry "x" 3 1) (numeric_zeros_entry "x" 5)] |}
    = {| dataset_name := ""; num_examples := 4;
         features := [MergeFrom (numeric_zeros_entry "x" 5) (numeric_entry "x" 3 1)] |}.
Proof.
  destruct (merge_permutation_invariance
    [report [numeric_entry "x" 3 1]; report [numeric_zeros_entry "x" 5]]
    [report [numeric_zeros_entry "x" 5]; report [numeric_entry "x" 3 1]]
    {| dataset_name := ""; num_examples := 4;
       features := [MergeFrom (numeric_entry "x" 3 1) (numeric_zeros_entry "x" 5)] |}
    {| dataset_name := ""; num_examples := 4;
       features := [MergeFrom (numeric_zeros_entry "x" 5) (numeric_entry "x" 3 1)] |})
    as (Hnames & Hnd & Hnd' & Hfree).
  - apply perm_swap.
  - reflexivity.
  - reflexivity.
  - destruct Hfree as [Hentries Hequal].
    + intros e e' He He' _.
      apply list_elem_of_In in He, He'. simpl in He, He'.
      destruct He as [<-|[<-|[]]], He' as [<-|[<-|[]]];
        (split; [right; right; reflexivity|reflexivity]).
    + split_and!; [exact Hnames|exact Hnd|exact Hnd'|exact Hentries|].
      apply Hequal. reflexivity.
Defined.

(** * The empty whitelist *)

